(** * Authentication subsystem of the backend template

    A shallow embedding of [app/core/security.py], [app/models/user.py],
    [app/crud/base.py], [app/crud/user_repo.py],
    [app/services/auth_service.py] and the transaction wrapper [get_db] of
    [app/core/database.py].

    Modelling choices:
    - Time is an integer number of seconds ([Z]); every request reads the
      clock once, so all the [datetime.now] calls of one request share one
      value [now].
    - A JWT is modelled by the key it was signed with and its payload; a
      string that is not a JWT at all is [Malformed].  PyJWT's HS256 codec
      is deterministic, so the token string is a function of key and
      payload.
    - Tables are lists of rows in insertion order; [scalar_one_or_none]
      raises on two or more matching rows, as SQLAlchemy does.
    - The Redis denylist is a list of (token, expiry instant) pairs; the
      key [ACCESS_TOKEN_BLACKLIST_PREFIX ++ token] is injective in the
      token, so entries are keyed by the token itself. *)

From Stdlib Require Import String ZArith List Bool Lia.
Import ListNotations.
Open Scope Z_scope.

(* ------------------------------------------------------------------ *)
(** ** Settings ([app/core/config.py], defaults) *)

Definition ACCESS_TOKEN_EXPIRE_MINUTES : Z := 30.
Definition REFRESH_TOKEN_EXPIRE_DAYS : Z := 7.
(** The signing key: any fixed string; no proof depends on its value. *)
Definition SECRET_KEY : string := "settings.SECRET_KEY"%string.

Definition access_lifetime : Z := ACCESS_TOKEN_EXPIRE_MINUTES * 60.
Definition refresh_lifetime : Z := REFRESH_TOKEN_EXPIRE_DAYS * 86400.

(* ------------------------------------------------------------------ *)
(** ** Token codec ([app/core/security.py] over PyJWT) *)

(** The payload keys the code reads: ["sub"], ["exp"], ["type"]. *)
Record Claims := mkClaims {
  sub : option string;
  exp : option Z;
  type : option string
}.

Inductive Token :=
| Jwt (key : string) (payload : Claims)
| Malformed (raw : string).

Definition option_eq_dec {A} (dec : forall x y : A, {x = y} + {x <> y})
  (x y : option A) : {x = y} + {x <> y}.
Proof. decide equality. Defined.

Definition claims_eq_dec (x y : Claims) : {x = y} + {x <> y}.
Proof.
  decide equality; apply option_eq_dec;
    first [apply string_dec | apply Z.eq_dec].
Defined.

Definition token_eq_dec (x y : Token) : {x = y} + {x <> y}.
Proof.
  decide equality; first [apply string_dec | apply claims_eq_dec].
Defined.

Definition token_eqb (x y : Token) : bool :=
  if token_eq_dec x y then true else false.

(** Python truthiness of the decoded payload dict: empty is falsy. *)
Definition claims_truthy (c : Claims) : bool :=
  match c with
  | mkClaims None None None => false
  | _ => true
  end.

(** [jwt.decode(token, key, algorithms=[ALGORITHM])]: the signature must
    verify under [key]; an ["exp"] claim, when present, must satisfy
    [exp > now] (PyJWT raises [ExpiredSignatureError] when
    [exp <= now]).  Every failure is an [InvalidTokenError]. *)
Definition jwt_decode (key : string) (now : Z) (t : Token) : option Claims :=
  match t with
  | Jwt k c =>
      if String.eqb k key then
        match exp c with
        | Some e => if e <=? now then None else Some c
        | None => Some c
        end
      else None
  | Malformed _ => None
  end.

(** [decode_token]: the payload, or [None] on [JWTError]. *)
Definition decode_token (now : Z) (token : Token) : option Claims :=
  jwt_decode SECRET_KEY now token.

(** [create_access_token(subject)] with the default [expires_delta]. *)
Definition create_access_token (now : Z) (subject : string) : Token :=
  Jwt SECRET_KEY (mkClaims (Some subject) (Some (now + access_lifetime))
                           (Some "access"%string)).

(** [create_refresh_token(subject)] with the default [expires_delta]. *)
Definition create_refresh_token (now : Z) (subject : string) : Token :=
  Jwt SECRET_KEY (mkClaims (Some subject) (Some (now + refresh_lifetime))
                           (Some "refresh"%string)).

(** Password hashing: bcrypt salts each digest and [verify] accepts
    exactly the plaintext the digest was made from. *)
Record PwHash := mkPwHash { salt : Z; hashed_secret : string }.

Definition get_password_hash (s : Z) (password : string) : PwHash :=
  mkPwHash s password.

Definition verify_password (plain_password : string) (h : PwHash) : bool :=
  String.eqb plain_password (hashed_secret h).

(* ------------------------------------------------------------------ *)
(** ** Models ([app/models/user.py]) *)

(** [id] is [str(uuid)], the form in which it travels in the ["sub"]
    claim. *)
Record User := mkUser {
  id : string;
  email : string;
  username : string;
  hashed_password : PwHash;
  full_name : option string;
  is_active : bool;
  is_superuser : bool;
  is_verified : bool;
  deleted_at : option Z
}.

Record RefreshToken := mkRefreshToken {
  token : Token;
  user_id : string;
  expires_at : Z;
  created_at : Z;
  revoked_at : option Z
}.

Definition is_revoked (r : RefreshToken) : bool :=
  match revoked_at r with Some _ => true | None => false end.

(** [datetime.now(timezone.utc) > self.expires_at] *)
Definition is_expired (now : Z) (r : RefreshToken) : bool :=
  now >? expires_at r.

Definition is_valid (now : Z) (r : RefreshToken) : bool :=
  negb (is_revoked r) && negb (is_expired now r).

(** [RefreshToken.revoke]: [self.revoked_at = datetime.now(timezone.utc)] *)
Definition rt_revoke (now : Z) (r : RefreshToken) : RefreshToken :=
  {| token := token r; user_id := user_id r; expires_at := expires_at r;
     created_at := created_at r; revoked_at := Some now |}.

(* ------------------------------------------------------------------ *)
(** ** The database session

    An [AsyncSession] is state passing over the two tables, with the
    exceptions the code can raise. *)

Record Db := mkDb {
  users : list User;
  rt_table : list RefreshToken
}.

Inductive AppError :=
| AuthenticationException (message : string)   (* HTTP 401 *)
| BusinessException (message : string)         (* HTTP 400 *)
| ResourceNotFoundException (message : string) (* HTTP 404 *)
| IntegrityError                               (* unique constraint, flush *)
| MultipleResultsFound.                        (* scalar_one_or_none *)

Inductive Result (A : Type) :=
| Ok (a : A)
| Err (e : AppError).
Arguments Ok {A} a.
Arguments Err {A} e.

Definition M (A : Type) : Type := Db -> Result A * Db.

Definition ret {A} (a : A) : M A := fun db => (Ok a, db).
Definition raise {A} (e : AppError) : M A := fun db => (Err e, db).
Definition bind {A B} (m : M A) (k : A -> M B) : M B :=
  fun db =>
    match m db with
    | (Ok a, db') => k a db'
    | (Err e, db') => (Err e, db')
    end.

Notation "x <- m ;; k" := (bind m (fun x => k))
  (at level 61, m at next level, right associativity).

(** [result.scalar_one_or_none()] over the selected rows. *)
Definition scalar_one_or_none {A} (rows : list A) : M (option A) :=
  match rows with
  | [] => ret None
  | [x] => ret (Some x)
  | _ => raise MultipleResultsFound
  end.

(** [get_db]: commit on success, roll back on any exception. *)
Definition run_tx {A} (m : M A) (db : Db) : Result A * Db :=
  match m db with
  | (Ok a, db') => (Ok a, db')
  | (Err e, _) => (Err e, db)
  end.

(* ------------------------------------------------------------------ *)
(** ** [UserRepo] ([app/crud/base.py], [app/crud/user_repo.py]) *)

Definition select_user (p : User -> bool) : M (option User) :=
  fun db => scalar_one_or_none (filter p (users db)) db.

(** [CRUDBase.get(db, id)] *)
Definition user_repo_get (uid : string) : M (option User) :=
  select_user (fun u => String.eqb (id u) uid).

(** [get_by_email], [get_by_username]: [get_by] without a soft-delete
    filter. *)
Definition get_by_email (e : string) : M (option User) :=
  select_user (fun u => String.eqb (email u) e).

Definition get_by_username (n : string) : M (option User) :=
  select_user (fun u => String.eqb (username u) n).

(** [or_(User.email == s, User.username == s)] *)
Definition get_by_email_or_username (s : string) : M (option User) :=
  select_user (fun u => String.eqb (email u) s || String.eqb (username u) s).

Record UserCreate := mkUserCreate {
  uc_email : string;
  uc_username : string;
  uc_full_name : option string;
  uc_password : string
}.

Record UserLogin := mkUserLogin {
  ul_username : string;
  ul_password : string
}.

(** [UserRepo.create]: the new row gets the fresh [uuid4] [new_id] and a
    bcrypt digest with salt [s]; the flush fails on any of the unique
    columns [id], [email], [username]. *)
Definition user_repo_create (new_id : string) (s : Z) (ui : UserCreate)
  : M User :=
  fun db =>
    let u := {| id := new_id; email := uc_email ui; username := uc_username ui;
                hashed_password := get_password_hash s (uc_password ui);
                full_name := uc_full_name ui; is_active := true;
                is_superuser := false; is_verified := false;
                deleted_at := None |} in
    if existsb (fun v => String.eqb (id v) new_id
                         || String.eqb (email v) (uc_email ui)
                         || String.eqb (username v) (uc_username ui))
               (users db)
    then (Err IntegrityError, db)
    else (Ok u, {| users := users db ++ [u];
                   rt_table := rt_table db |}).

(* ------------------------------------------------------------------ *)
(** ** [RefreshTokenRepo] ([app/crud/user_repo.py]) *)

Definition set_refresh_tokens (rts : list RefreshToken) : M unit :=
  fun db => (Ok tt, {| users := users db; rt_table := rts |}).

Definition get_refresh_tokens : M (list RefreshToken) :=
  fun db => (Ok (rt_table db), db).

(** Mutating the session's object for the row whose token is [tok] and
    flushing. *)
Definition update_row (tok : Token) (f : RefreshToken -> RefreshToken)
  : M unit :=
  rts <- get_refresh_tokens ;;
  set_refresh_tokens
    (map (fun r => if token_eqb (token r) tok then f r else r) rts).

Definition get_by_token (tok : Token) : M (option RefreshToken) :=
  fun db =>
    scalar_one_or_none (filter (fun r => token_eqb (token r) tok)
                               (rt_table db)) db.

Definition get_valid_by_token (now : Z) (tok : Token)
  : M (option RefreshToken) :=
  r <- get_by_token tok ;;
  match r with
  | Some r => if is_valid now r then ret (Some r) else ret None
  | None => ret None
  end.

(** [RefreshTokenRepo.create]; the flush fails on the unique column
    [token]. *)
Definition rt_create (now : Z) (uid : string) (tok : Token) (exp_at : Z)
  : M RefreshToken :=
  fun db =>
    let r := {| token := tok; user_id := uid; expires_at := exp_at;
                created_at := now; revoked_at := None |} in
    if existsb (fun r' => token_eqb (token r') tok) (rt_table db)
    then (Err IntegrityError, db)
    else (Ok r, {| users := users db;
                   rt_table := rt_table db ++ [r] |}).

(** [RefreshTokenRepo.revoke] *)
Definition revoke (now : Z) (tok : Token) : M (option RefreshToken) :=
  r <- get_by_token tok ;;
  match r with
  | Some r =>
      _ <- update_row (token r) (rt_revoke now) ;;
      ret (Some (rt_revoke now r))
  | None => ret None
  end.

(** [RefreshTokenRepo.revoke_user_tokens] *)
Definition revoke_user_tokens (now : Z) (uid : string)
  : M (list RefreshToken) :=
  rts <- get_refresh_tokens ;;
  let sel r := String.eqb (user_id r) uid && negb (is_revoked r) in
  _ <- set_refresh_tokens (map (fun r => if sel r then rt_revoke now r else r) rts) ;;
  ret (map (rt_revoke now) (filter sel rts)).

(** [RefreshTokenRepo.delete_expired]: [DELETE ... WHERE expires_at < now] *)
Definition delete_expired (now : Z) : M nat :=
  rts <- get_refresh_tokens ;;
  _ <- set_refresh_tokens (filter (fun r => negb (expires_at r <? now)) rts) ;;
  ret (length (filter (fun r => expires_at r <? now) rts)).

(* ------------------------------------------------------------------ *)
(** ** Access-token denylist (Redis, [setex] and [exists]) *)

Definition Denylist : Type := list (Token * Z).

(** [redis.exists(prefix + k)]: a key set with [setex] at time [t] with
    ttl [ttl] lives while [now < t + ttl]. *)
Definition redis_exists (dl : Denylist) (now : Z) (k : Token) : bool :=
  existsb (fun '(k', until) => token_eqb k' k && (now <? until)) dl.

(** [redis.setex(prefix + k, ttl, "1")] replaces any previous entry. *)
Definition redis_setex (dl : Denylist) (now : Z) (k : Token) (ttl : Z)
  : Denylist :=
  (k, now + ttl) :: filter (fun '(k', _) => negb (token_eqb k' k)) dl.

(* ------------------------------------------------------------------ *)
(** ** [AuthService] ([app/services/auth_service.py])

    The messages of the code, in English: *)

Definition MSG_EMAIL_TAKEN := "email already registered"%string.       (* 邮箱已被注册 *)
Definition MSG_USERNAME_TAKEN := "username already taken"%string.      (* 用户名已被占用 *)
Definition MSG_BAD_CREDENTIALS := "wrong username or password"%string. (* 用户名或密码错误 *)
Definition MSG_ACCOUNT_DISABLED := "account disabled"%string.          (* 账户已被禁用 *)
Definition MSG_INVALID_REFRESH := "invalid refresh token"%string.      (* 无效的刷新令牌 *)
Definition MSG_REFRESH_GONE := "refresh token expired or revoked"%string. (* 刷新令牌已过期或被撤回 *)
Definition MSG_USER_GONE := "user missing or disabled"%string.         (* 用户不存在或已被禁用 *)
Definition MSG_TOKEN_REVOKED := "token revoked"%string.                (* 令牌已失效 *)
Definition MSG_INVALID_ACCESS := "invalid access token"%string.        (* 无效的访问令牌 *)
Definition MSG_INVALID_PAYLOAD := "invalid token payload"%string.      (* 无效的令牌载荷 *)
Definition MSG_USER_NOT_FOUND := "user not found"%string.              (* 用户不存在 *)

Record TokenResponse := mkTokenResponse {
  access_token : Token;
  refresh_token : Token;
  token_type : string
}.

(** [token_data.get("type") == kind] *)
Definition type_is (c : Claims) (kind : string) : bool :=
  match type c with Some t => String.eqb t kind | None => false end.

(** [AuthService.register]; [new_id] is the row's [uuid4], [s] the bcrypt
    salt. *)
Definition register (new_id : string) (s : Z) (user_in : UserCreate) : M User :=
  existing_user <- get_by_email (uc_email user_in) ;;
  match existing_user with
  | Some _ => raise (BusinessException MSG_EMAIL_TAKEN)
  | None =>
      existing_user <- get_by_username (uc_username user_in) ;;
      match existing_user with
      | Some _ => raise (BusinessException MSG_USERNAME_TAKEN)
      | None => user_repo_create new_id s user_in
      end
  end.

(** [AuthService.login] *)
Definition login (now : Z) (user_in : UserLogin) : M TokenResponse :=
  user <- get_by_email_or_username (ul_username user_in) ;;
  match user with
  | None => raise (AuthenticationException MSG_BAD_CREDENTIALS)
  | Some user =>
      if negb (verify_password (ul_password user_in) (hashed_password user))
      then raise (AuthenticationException MSG_BAD_CREDENTIALS)
      else if negb (is_active user)
      then raise (AuthenticationException MSG_ACCOUNT_DISABLED)
      else
        let access := create_access_token now (id user) in
        let refresh := create_refresh_token now (id user) in
        _ <- rt_create now (id user) refresh (now + refresh_lifetime) ;;
        ret (mkTokenResponse access refresh "bearer")
  end.

(** [AuthService.refresh_tokens] *)
Definition refresh_tokens (now : Z) (refresh_token : Token) : M TokenResponse :=
  match decode_token now refresh_token with
  | Some token_data =>
      if negb (claims_truthy token_data && type_is token_data "refresh")
      then raise (AuthenticationException MSG_INVALID_REFRESH)
      else
        token_obj <- get_valid_by_token now refresh_token ;;
        match token_obj with
        | None => raise (AuthenticationException MSG_REFRESH_GONE)
        | Some token_obj =>
            user <- user_repo_get (user_id token_obj) ;;
            match user with
            | Some user =>
                if negb (is_active user)
                then raise (AuthenticationException MSG_USER_GONE)
                else
                  _ <- update_row (token token_obj) (rt_revoke now) ;;
                  let access := create_access_token now (id user) in
                  let new_refresh := create_refresh_token now (id user) in
                  _ <- rt_create now (id user) new_refresh (now + refresh_lifetime) ;;
                  ret (mkTokenResponse access new_refresh "bearer")
            | None => raise (AuthenticationException MSG_USER_GONE)
            end
        end
  | None => raise (AuthenticationException MSG_INVALID_REFRESH)
  end.

(** The [setex] call [logout] makes, if any: key and ttl. *)
Definition logout_blacklist (now : Z) (access : Token) : option (Token * Z) :=
  match decode_token now access with
  | Some token_data =>
      if claims_truthy token_data then
        let e := match exp token_data with Some e => e | None => 0 end in
        let ttl := Z.max 0 (e - now) in
        if ttl >? 0 then Some (access, ttl) else None
      else None
  | None => None
  end.

(** [AuthService.logout]: the Redis write, then the revocation in the
    session.  Only the session part is inside the [get_db] transaction. *)
Definition logout (now : Z) (access refresh : Token) (dl : Denylist) (db : Db)
  : Denylist * (Result unit * Db) :=
  let dl' := match logout_blacklist now access with
             | Some (k, ttl) => redis_setex dl now k ttl
             | None => dl
             end in
  (dl', (_ <- revoke now refresh ;; ret tt) db).

(** [AuthService.get_current_user] *)
Definition get_current_user (now : Z) (dl : Denylist) (tok : Token) : M User :=
  if redis_exists dl now tok
  then raise (AuthenticationException MSG_TOKEN_REVOKED)
  else
    match decode_token now tok with
    | Some token_data =>
        if negb (claims_truthy token_data && type_is token_data "access")
        then raise (AuthenticationException MSG_INVALID_ACCESS)
        else
          match sub token_data with
          | Some uid =>
              if String.eqb uid "" then raise (AuthenticationException MSG_INVALID_PAYLOAD)
              else
                user <- user_repo_get uid ;;
                match user with
                | None => raise (ResourceNotFoundException MSG_USER_NOT_FOUND)
                | Some user =>
                    if negb (is_active user)
                    then raise (AuthenticationException MSG_ACCOUNT_DISABLED)
                    else ret user
                end
          | None => raise (AuthenticationException MSG_INVALID_PAYLOAD)
          end
    | None => raise (AuthenticationException MSG_INVALID_ACCESS)
    end.

(* ------------------------------------------------------------------ *)
(** ** The running service

    A world holds the database, the Redis denylist and the clock.
    [issued] is bookkeeping only: the tokens the service has handed out.
    Each request is one step; the session part of a request runs inside
    [get_db] ([run_tx]).  Clients do not hold [SECRET_KEY]: a signed token
    a client presents is one the service issued. *)

Record World := mkWorld {
  db : Db;
  denylist : Denylist;
  clock : Z;
  issued : list Token
}.

Definition tokens_of (r : Result TokenResponse) : list Token :=
  match r with
  | Ok t => [access_token t; refresh_token t]
  | Err _ => []
  end.

Definition presentable (w : World) (t : Token) : Prop :=
  match t with
  | Jwt k _ => k <> SECRET_KEY \/ In t (issued w)
  | Malformed _ => True
  end.

(** The session half of [logout]. *)
Definition logout_session (now : Z) (refresh : Token) : M unit :=
  _ <- revoke now refresh ;; ret tt.

(** [AuthService.logout] as a request: Redis write first, outside the
    transaction, then the revocation inside it. *)
Definition logout_request (now : Z) (access refresh : Token) (w : World)
  : World :=
  let dl' := fst (logout now access refresh (denylist w) (db w)) in
  {| db := snd (run_tx (logout_session now refresh) (db w));
     denylist := dl'; clock := clock w; issued := issued w |}.

Inductive step : World -> World -> Prop :=
| step_tick w t :
    clock w <= t ->
    step w {| db := db w; denylist := denylist w; clock := t; issued := issued w |}
| step_register w new_id s ui :
    new_id <> ""%string ->
    step w {| db := snd (run_tx (register new_id s ui) (db w));
              denylist := denylist w; clock := clock w; issued := issued w |}
| step_login w ui r db' :
    run_tx (login (clock w) ui) (db w) = (r, db') ->
    step w {| db := db'; denylist := denylist w; clock := clock w;
              issued := issued w ++ tokens_of r |}
| step_refresh w rt r db' :
    run_tx (refresh_tokens (clock w) rt) (db w) = (r, db') ->
    step w {| db := db'; denylist := denylist w; clock := clock w;
              issued := issued w ++ tokens_of r |}
| step_logout w a rt :
    presentable w a ->
    step w (logout_request (clock w) a rt w)
| step_revoke_user_tokens w uid :
    step w {| db := snd (run_tx (revoke_user_tokens (clock w) uid) (db w));
              denylist := denylist w; clock := clock w; issued := issued w |}
| step_delete_expired w :
    step w {| db := snd (run_tx (delete_expired (clock w)) (db w));
              denylist := denylist w; clock := clock w; issued := issued w |}
| step_edit_users w us :
    (** any change of the user table that keeps its primary key: the
        profile updates and deletions of [UserService] *)
    NoDup (map id us) -> (forall u, In u us -> id u <> ""%string) ->
    step w {| db := {| users := us; rt_table := rt_table (db w) |};
              denylist := denylist w; clock := clock w; issued := issued w |}.

Inductive steps : World -> World -> Prop :=
| steps_refl w : steps w w
| steps_step w1 w2 w3 : step w1 w2 -> steps w2 w3 -> steps w1 w3.

Definition init_world (t0 : Z) : World :=
  {| db := {| users := []; rt_table := [] |}; denylist := []; clock := t0;
     issued := [] |}.

Definition reachable (w : World) : Prop := exists t0, steps (init_world t0) w.

(** The repository operations on the refresh-token table. *)
Inductive RepoOp :=
| OpCreate (uid : string) (tok : Token) (exp_at : Z)
| OpGetByToken (tok : Token)
| OpGetValidByToken (tok : Token)
| OpRevoke (tok : Token)
| OpRevokeUserTokens (uid : string)
| OpDeleteExpired.

Definition run_op (now : Z) (op : RepoOp) : M unit :=
  match op with
  | OpCreate uid tok e => _ <- rt_create now uid tok e ;; ret tt
  | OpGetByToken tok => _ <- get_by_token tok ;; ret tt
  | OpGetValidByToken tok => _ <- get_valid_by_token now tok ;; ret tt
  | OpRevoke tok => _ <- revoke now tok ;; ret tt
  | OpRevokeUserTokens uid => _ <- revoke_user_tokens now uid ;; ret tt
  | OpDeleteExpired => _ <- delete_expired now ;; ret tt
  end.

(* ------------------------------------------------------------------ *)
(** ** Sample runs *)

Definition ui_alice : UserCreate :=
  mkUserCreate "a@x.com" "alice" None "Password1!".
Definition db_alice : Db := snd (register "uid-alice" 1 ui_alice (mkDb [] [])).

(* ------------------------------------------------------------------ *)
(** ** Soft delete ([SoftDeleteMixin], [app/models/base.py]) *)

Definition soft_delete (now : Z) (u : User) : User :=
  {| id := id u; email := email u; username := username u;
     hashed_password := hashed_password u; full_name := full_name u;
     is_active := is_active u; is_superuser := is_superuser u;
     is_verified := is_verified u; deleted_at := Some now |}.

Definition is_deleted (u : User) : bool :=
  match deleted_at u with Some _ => true | None => false end.

(* ------------------------------------------------------------------ *)
(** ** The update path ([UserUpdate], [UserRepo.update], [CRUDBase.update]) *)

Definition MSG_EMAIL_IN_USE := "email already in use"%string.  (* 邮箱已被使用 *)

(** [UserUpdate]: a field is unset ([None]), sent as [null]
    ([Some None]) or sent with a value ([Some (Some v)]);
    [model_dump(exclude_unset=True)] keeps the fields that were sent. *)
Record UserUpdate := mkUserUpdate {
  uu_email : option (option string);
  uu_full_name : option (option string);
  uu_password : option (option string)
}.

(** [user_in.email] read as an attribute: [None] when unset or [null]. *)
Definition uu_email_attr (user_in : UserUpdate) : option string :=
  match uu_email user_in with Some (Some e) => Some e | _ => None end.

(** [UserRepo.update] then [CRUDBase.update] on the session object of the
    row [db_obj]: a sent password that is not [null] is replaced by
    [hashed_password] (salt [s]); a [null] password stays under the key
    ["password"], which [User] has no attribute for, so [setattr] skips
    it; [email] and [full_name] are set as sent.  The flush enforces the
    [email] column: NOT NULL and unique. *)
Definition user_repo_update (s : Z) (db_obj : User) (obj_in : UserUpdate) : M User :=
  fun db =>
    let email' := match uu_email obj_in with None => Some (email db_obj) | Some e => e end in
    let full_name' :=
      match uu_full_name obj_in with None => full_name db_obj | Some f => f end in
    let hashed' :=
      match uu_password obj_in with
      | Some (Some p) => get_password_hash s p
      | _ => hashed_password db_obj
      end in
    match email' with
    | None => (Err IntegrityError, db)
    | Some e =>
        let u' := {| id := id db_obj; email := e; username := username db_obj;
                     hashed_password := hashed'; full_name := full_name';
                     is_active := is_active db_obj; is_superuser := is_superuser db_obj;
                     is_verified := is_verified db_obj; deleted_at := deleted_at db_obj |} in
        if existsb (fun v => negb (String.eqb (id v) (id db_obj)) && String.eqb (email v) e)
                   (users db)
        then (Err IntegrityError, db)
        else (Ok u', {| users := map (fun v => if String.eqb (id v) (id db_obj) then u' else v)
                                     (users db);
                        rt_table := rt_table db |})
    end.

(* ------------------------------------------------------------------ *)
(** ** [UserService] ([app/services/user_service.py]) *)


Definition update_user_me (s : Z) (current_user : User) (user_in : UserUpdate) : M User :=
  _ <- match uu_email_attr user_in with
       | Some e =>
           if negb (String.eqb e "") && negb (String.eqb e (email current_user)) then
             existing_user <- get_by_email e ;;
             match existing_user with
             | Some ex =>
                 if negb (String.eqb (id ex) (id current_user))
                 then raise (BusinessException MSG_EMAIL_IN_USE)
                 else ret tt
             | None => ret tt
             end
           else ret tt
       | None => ret tt
       end ;;
  user_repo_update s current_user user_in.

Definition update_user (s : Z) (user_id : string) (user_in : UserUpdate) : M User :=
  user <- user_repo_get user_id ;;
  match user with
  | None => raise (ResourceNotFoundException MSG_USER_NOT_FOUND)
  | Some user =>
      _ <- match uu_email_attr user_in with
           | Some e =>
               if negb (String.eqb e "") && negb (String.eqb e (email user)) then
                 existing_user <- get_by_email e ;;
                 match existing_user with
                 | Some ex =>
                     if negb (String.eqb (id ex) (id user))
                     then raise (BusinessException MSG_EMAIL_IN_USE)
                     else ret tt
                 | None => ret tt
                 end
               else ret tt
           | None => ret tt
           end ;;
      user_repo_update s user user_in
  end.

(** The flush of [user.soft_delete()]: the row with key [k] gets
    [deleted_at = now]. *)
Definition soft_delete_row (now : Z) (k : string) (v : User) : User :=
  if String.eqb (id v) k then soft_delete now v else v.

(** [delete_user]: [user.soft_delete()] on the session object, flushed. *)
Definition delete_user (now : Z) (user_id : string) : M unit :=
  user <- user_repo_get user_id ;;
  match user with
  | None => raise (ResourceNotFoundException MSG_USER_NOT_FOUND)
  | Some user =>
      fun db => (Ok tt, {| users := map (soft_delete_row now (id user)) (users db);
                           rt_table := rt_table db |})
  end.

(* ------------------------------------------------------------------ *)
(** ** Pages ([PageResponse.create], [CRUDBase.get_multi], [get_users]) *)

Record MetaResponse := mkMetaResponse {
  m_total : Z; m_page : Z; m_size : Z; m_pages : Z;
  m_has_next : bool; m_has_prev : bool
}.

Record PageResponse (A : Type) := mkPageResponse {
  items : list A;
  meta : MetaResponse
}.
Arguments mkPageResponse {A}.
Arguments items {A}.
Arguments meta {A}.

(** [PageResponse.create]; [None] is the [ValidationError] pydantic raises
    when a field of [MetaResponse] breaks its bound ([total >= 0],
    [page >= 1], [size >= 1], [pages >= 0]).  [//] is [Z.div]: both floor. *)
Definition PageResponse_create {A} (items : list A) (total page size : Z)
  : option (PageResponse A) :=
  let pages := if size >? 0 then (total + size - 1) / size else 0 in
  let has_next := page <? pages in
  let has_prev := page >? 1 in
  if (0 <=? total) && (1 <=? page) && (1 <=? size) && (0 <=? pages)
  then Some (mkPageResponse items (mkMetaResponse total page size pages has_next has_prev))
  else None.

(** [CRUDBase.get_multi]: [OFFSET skip LIMIT limit] over the ordered
    rows; PostgreSQL refuses a negative [OFFSET] or [LIMIT] ([None]). *)
Definition crud_get_multi {A} (rows : list A) (skip limit : Z) : option (list A) :=
  if (skip <? 0) || (limit <? 0) then None
  else Some (firstn (Z.to_nat limit) (skipn (Z.to_nat skip) rows)).

(** [UserService.get_users].  [order_by_created_desc] is the row order of
    [ORDER BY created_at DESC] that [UserRepo.get_multi] asks for (the
    model's [User] does not carry the timestamps); [CRUDBase.count] counts
    every row of [users].  [None]: an exception (database or
    validation). *)
Definition get_users (order_by_created_desc : list User -> list User)
  (skip limit : Z) (db : Db) : option (PageResponse User) :=
  match crud_get_multi (order_by_created_desc (users db)) skip limit with
  | None => None
  | Some us =>
      let total := Z.of_nat (length (users db)) in
      let page := if limit >? 0 then skip / limit + 1 else 1 in
      PageResponse_create us total page limit
  end.

(* ------------------------------------------------------------------ *)
(** ** API dependencies ([app/api/deps.py]) *)

Definition get_current_active_user (now : Z) (dl : Denylist) (tok : Token) : M User :=
  current_user <- get_current_user now dl tok ;;
  if negb (is_active current_user)
  then raise (AuthenticationException MSG_ACCOUNT_DISABLED)
  else ret current_user.

(* ------------------------------------------------------------------ *)
(** ** Proof vocabulary and sample states *)

Definition tok_r : Token :=
  Jwt SECRET_KEY (mkClaims (Some "uid-alice"%string) (Some 605800) (Some "refresh"%string)).

Definition row_revoked_at (t : Z) : RefreshToken :=
  mkRefreshToken tok_r "uid-alice" 605800 1000 (Some t).

Definition row_live (exp_at : Z) : RefreshToken :=
  mkRefreshToken tok_r "uid-alice" exp_at 1000 None.

(** Two accounts where the second one's username is the first one's
    email; both registrations pass the duplicate checks. *)
Definition ui_bob : UserCreate :=
  mkUserCreate "b@x.com" "a@x.com" None "Password2!".
Definition db_alice_bob : Db := snd (register "uid-bob" 2 ui_bob db_alice).

Ltac unfold_m := unfold bind, ret, raise in *.

(** The refresh-token row [login] and [refresh_tokens] insert. *)
Definition new_row (now : Z) (s : string) : RefreshToken :=
  mkRefreshToken (create_refresh_token now s) s (now + refresh_lifetime) now None.

(** Revoking, in the table, the rows whose token is [tok]. *)
Definition revoke_rows (now : Z) (tok : Token) (rts : list RefreshToken)
  : list RefreshToken :=
  map (fun x => if token_eqb (token x) tok then rt_revoke now x else x) rts.

Definition revoke_user_rows (now : Z) (uid : string) (rts : list RefreshToken)
  : list RefreshToken :=
  map (fun r => if String.eqb (user_id r) uid && negb (is_revoked r)
                then rt_revoke now r else r) rts.

Definition sweep_rows (now : Z) (rts : list RefreshToken) : list RefreshToken :=
  filter (fun r => negb (expires_at r <? now)) rts.

(** A row update that keeps the token, the expiry and revocation. *)
Definition monotone_row (g : RefreshToken -> RefreshToken) : Prop :=
  forall x, token (g x) = token x /\ expires_at (g x) = expires_at x
            /\ (is_revoked x = true -> is_revoked (g x) = true).

Inductive table_step (now : Z) (l : list RefreshToken) : list RefreshToken -> Prop :=
| ts_map g : monotone_row g -> table_step now l (map g l)
| ts_add g s :
    monotone_row g ->
    existsb (fun x => token_eqb (token x) (create_refresh_token now s)) (map g l) = false ->
    table_step now l (map g l ++ [new_row now s])
| ts_sweep : table_step now l (sweep_rows now l).

(** A row update that keeps every column a lookup or a login reads. *)
Definition keeps_login_columns (f : User -> User) : Prop :=
  forall v, id (f v) = id v /\ email (f v) = email v /\ username (f v) = username v
            /\ hashed_password (f v) = hashed_password v /\ is_active (f v) = is_active v.

Definition users_ok (d : Db) : Prop :=
  NoDup (map id (users d)) /\ forall u, In u (users d) -> id u <> ""%string.

(** A stored row's token is a refresh JWT whose [exp] is the row's
    [expires_at]: both come from the same [now]. *)
Definition refresh_shape (r : RefreshToken) : Prop :=
  exists s, token r = Jwt SECRET_KEY (mkClaims (Some s) (Some (expires_at r))
                                              (Some "refresh"%string)).

Record Inv (w : World) : Prop := {
  inv_rt_nodup : NoDup (map token (rt_table (db w)));
  inv_rt_shape : forall r, In r (rt_table (db w)) -> refresh_shape r;
  inv_users : users_ok (db w);
  inv_dl_issued : forall k u, In (k, u) (denylist w) -> In k (issued w);
  inv_issued_paired : forall t s,
    In (create_access_token t s) (issued w) ->
    t + refresh_lifetime < clock w
    \/ exists r, In r (rt_table (db w)) /\ token r = create_refresh_token t s
}.

Definition user_alice : User :=
  mkUser "uid-alice" "a@x.com" "alice" (mkPwHash 1 "Password1!") None true false false None.

Definition w_alice : World :=
  {| db := snd (run_tx (register "uid-alice" 1 ui_alice) (mkDb [] []));
     denylist := []; clock := 1000; issued := [] |}.

(** After a successful rotation of [rt] whose expiry is [e], the row of
    [rt] stays revoked, or [rt] has expired. *)
Definition rotated_away (rt : Token) (e : Z) (w : World) : Prop :=
  (exists r, In r (rt_table (db w)) /\ token r = rt /\ is_revoked r = true)
  \/ e <= clock w.

(** Sample worlds: Alice registered at 1000, logged in at 1000, and the
    clock moved to 2000. *)
Definition login_world (ui : UserLogin) (w : World) : World :=
  {| db := snd (run_tx (login (clock w) ui) (db w)); denylist := denylist w;
     clock := clock w;
     issued := issued w ++ tokens_of (fst (run_tx (login (clock w) ui) (db w))) |}.

Definition tick_world (t : Z) (w : World) : World :=
  {| db := db w; denylist := denylist w; clock := t; issued := issued w |}.

Definition w_alice_in : World := login_world (mkUserLogin "alice" "Password1!") w_alice.

Definition w_alice_2000 : World := tick_world 2000 w_alice_in.

Definition rt_alice : Token := create_refresh_token 1000 "uid-alice".

Definition resp_alice_2000 : TokenResponse :=
  mkTokenResponse (create_access_token 2000 "uid-alice")
                  (create_refresh_token 2000 "uid-alice") "bearer".

Definition db_alice_rotated : Db :=
  snd (run_tx (refresh_tokens 2000 rt_alice) (db w_alice_2000)).

Definition user_alice_deleted : User :=
  mkUser "uid-alice" "a@x.com" "alice" (mkPwHash 1 "Password1!") None true false false
         (Some 1500).

(* ------------------------------------------------------------------ *)
(** ** Concrete runs *)

Example login_alice_then_identify :
  match login 1000 (mkUserLogin "alice" "Password1!") db_alice with
  | (Ok resp, db1) =>
      match get_current_user 1001 [] (access_token resp) db1 with
      | (Ok u, _) => String.eqb (username u) "alice"
      | _ => false
      end
  | _ => false
  end = true.
Proof. vm_compute. reflexivity. Qed.

Example login_wrong_password :
  fst (login 1000 (mkUserLogin "alice" "nope") db_alice)
  = Err (AuthenticationException MSG_BAD_CREDENTIALS).
Proof. vm_compute. reflexivity. Qed.

(* ------------------------------------------------------------------ *)
(** ** C3 *)

(** C3 (code_bug): revoking an already-revoked refresh token is not a
    no-op: [RefreshTokenRepo.revoke] calls [RefreshToken.revoke], which
    overwrites [revoked_at] with the current time.  The row revoked at
    time 1000 carries time 2000 after a second [revoke] at 2000. *)
Theorem revoke_twice_moves_timestamp :
  revoke 2000 tok_r (mkDb [] [row_revoked_at 1000])
  = (Ok (Some (row_revoked_at 2000)), mkDb [] [row_revoked_at 2000]).
Proof. vm_compute. reflexivity. Qed.

(* ------------------------------------------------------------------ *)
(** ** C8 *)

(** C8 (counterexample): a stored row whose [expires_at] equals [now] is
    not expired, is valid, and [get_valid_by_token] returns it. *)
Lemma stored_expiry_boundary_not_expired :
  is_expired 605800 (row_live 605800) = false
  /\ is_valid 605800 (row_live 605800) = true
  /\ fst (get_valid_by_token 605800 tok_r (mkDb [] [row_live 605800]))
     = Ok (Some (row_live 605800)).
Proof. vm_compute. repeat split. Qed.

(* ------------------------------------------------------------------ *)
(** ** C9 *)

(** C9 (code_bug): the registered account alice ("a@x.com") tried with a
    wrong password fails with [MultipleResultsFound] (a 500), because the
    login lookup matches alice by email and bob by username; an unknown
    login name fails with the generic [AuthenticationException]. *)
Theorem login_lookup_collision :
  fst (register "uid-bob" 2 ui_bob db_alice) <> Err IntegrityError
  /\ fst (login 3000 (mkUserLogin "a@x.com" "wrong-password") db_alice_bob)
     = Err MultipleResultsFound
  /\ fst (login 3000 (mkUserLogin "nobody" "wrong-password") db_alice_bob)
     = Err (AuthenticationException MSG_BAD_CREDENTIALS).
Proof. vm_compute. split; [discriminate | split; reflexivity]. Qed.

(* ------------------------------------------------------------------ *)
(** ** Equations of the session operations *)

Lemma token_eqb_true x y : token_eqb x y = true <-> x = y.
Proof. unfold token_eqb. destruct (token_eq_dec x y); split; congruence. Qed.

Lemma token_eqb_refl x : token_eqb x x = true.
Proof. apply token_eqb_true. reflexivity. Qed.

Lemma select_user_eq p db :
  select_user p db =
  (match filter p (users db) with
   | [] => Ok None
   | [x] => Ok (Some x)
   | _ => Err MultipleResultsFound
   end, db).
Proof.
  unfold select_user, scalar_one_or_none; unfold_m.
  destruct (filter p (users db)) as [|x [|y l]]; reflexivity.
Qed.

Lemma get_by_token_eq tok db :
  get_by_token tok db =
  (match filter (fun r => token_eqb (token r) tok) (rt_table db) with
   | [] => Ok None
   | [x] => Ok (Some x)
   | _ => Err MultipleResultsFound
   end, db).
Proof.
  unfold get_by_token, scalar_one_or_none; unfold_m.
  destruct (filter _ (rt_table db)) as [|x [|y l]]; reflexivity.
Qed.

Lemma run_tx_cases {A} (m : M A) db r db' :
  run_tx m db = (r, db') ->
  (exists a, r = Ok a /\ m db = (Ok a, db')) \/ (exists e, r = Err e /\ db' = db).
Proof.
  unfold run_tx. destruct (m db) as [[a|e] db1]; intros H; inversion H; subst.
  - left. eauto.
  - right. eauto.
Qed.

Lemma login_ok now ui db0 resp db' :
  login now ui db0 = (Ok resp, db') ->
  exists u,
    filter (fun u => String.eqb (email u) (ul_username ui)
                     || String.eqb (username u) (ul_username ui)) (users db0) = [u]
    /\ verify_password (ul_password ui) (hashed_password u) = true
    /\ is_active u = true
    /\ resp = mkTokenResponse (create_access_token now (id u))
                              (create_refresh_token now (id u)) "bearer"
    /\ existsb (fun r => token_eqb (token r) (create_refresh_token now (id u)))
               (rt_table db0) = false
    /\ db' = mkDb (users db0) (rt_table db0 ++ [new_row now (id u)]).
Proof.
  unfold login, get_by_email_or_username. unfold_m. rewrite select_user_eq.
  destruct (filter _ (users db0)) as [|u [|v l]] eqn:F; try discriminate.
  destruct (verify_password _ _) eqn:V; simpl; try discriminate.
  destruct (is_active u) eqn:Act; simpl; try discriminate.
  unfold rt_create.
  destruct (existsb _ (rt_table db0)) eqn:E; intros H; inversion H; subst.
  exists u. repeat split; auto.
Qed.

Lemma filter_one_in {A} (p : A -> bool) l x :
  filter p l = [x] -> In x l /\ p x = true.
Proof.
  intros H. assert (Hx : In x (filter p l)) by (rewrite H; left; reflexivity).
  apply filter_In in Hx. exact Hx.
Qed.

Lemma refresh_ok now rt db0 resp db' :
  refresh_tokens now rt db0 = (Ok resp, db') ->
  exists c r u,
    decode_token now rt = Some c
    /\ type_is c "refresh" = true
    /\ filter (fun x => token_eqb (token x) rt) (rt_table db0) = [r]
    /\ is_valid now r = true
    /\ filter (fun v => String.eqb (id v) (user_id r)) (users db0) = [u]
    /\ is_active u = true
    /\ resp = mkTokenResponse (create_access_token now (id u))
                              (create_refresh_token now (id u)) "bearer"
    /\ existsb (fun x => token_eqb (token x) (create_refresh_token now (id u)))
               (revoke_rows now rt (rt_table db0)) = false
    /\ db' = mkDb (users db0) (revoke_rows now rt (rt_table db0) ++ [new_row now (id u)]).
Proof.
  unfold refresh_tokens.
  destruct (decode_token now rt) as [c|] eqn:D; [|unfold_m; discriminate].
  destruct (claims_truthy c && type_is c "refresh") eqn:T; simpl; [|unfold_m; discriminate].
  apply andb_prop in T as [_ T].
  unfold get_valid_by_token. unfold_m. rewrite get_by_token_eq.
  destruct (filter _ (rt_table db0)) as [|r [|r' l]] eqn:F; try discriminate.
  destruct (is_valid now r) eqn:Vd; try discriminate.
  unfold user_repo_get. rewrite select_user_eq.
  destruct (filter _ (users db0)) as [|u [|v l]] eqn:FU; try discriminate.
  destruct (is_active u) eqn:Act; simpl; try discriminate.
  pose proof (filter_one_in _ _ _ F) as [_ Hr]. apply token_eqb_true in Hr.
  unfold update_row, get_refresh_tokens, set_refresh_tokens, rt_create; unfold_m; simpl.
  rewrite Hr.
  destruct (existsb _ _) eqn:E; intros H; inversion H; subst.
  exists c, r, u. repeat split; auto.
Qed.

Lemma revoke_eq now tok db0 :
  revoke now tok db0 =
  match filter (fun r => token_eqb (token r) tok) (rt_table db0) with
  | [] => (Ok None, db0)
  | [x] => (Ok (Some (rt_revoke now x)),
            mkDb (users db0) (revoke_rows now tok (rt_table db0)))
  | _ => (Err MultipleResultsFound, db0)
  end.
Proof.
  unfold revoke. unfold_m. rewrite get_by_token_eq.
  destruct (filter _ (rt_table db0)) as [|x [|y l]] eqn:F; try reflexivity.
  pose proof (filter_one_in _ _ _ F) as [_ Hx]. apply token_eqb_true in Hx.
  unfold update_row, get_refresh_tokens, set_refresh_tokens; unfold_m; simpl.
  rewrite Hx. reflexivity.
Qed.

Lemma revoke_user_tokens_eq now uid db0 :
  snd (revoke_user_tokens now uid db0)
  = mkDb (users db0) (revoke_user_rows now uid (rt_table db0)).
Proof. reflexivity. Qed.

Lemma delete_expired_eq now db0 :
  snd (delete_expired now db0) = mkDb (users db0) (sweep_rows now (rt_table db0)).
Proof. reflexivity. Qed.

Lemma existsb_false_forall {A} (f : A -> bool) l :
  existsb f l = false <-> (forall x, In x l -> f x = false).
Proof.
  split.
  - intros H x Hx. destruct (f x) eqn:Fx; [|reflexivity].
    assert (existsb f l = true) by (apply existsb_exists; eauto). congruence.
  - intros H. destruct (existsb f l) eqn:E; [|reflexivity].
    apply existsb_exists in E as [x [Hx Fx]]. rewrite H in Fx; auto.
Qed.

Lemma register_shape new_id s ui db0 r db' :
  register new_id s ui db0 = (r, db') ->
  rt_table db' = rt_table db0
  /\ (users db' = users db0
      \/ exists u, users db' = users db0 ++ [u] /\ id u = new_id
                   /\ existsb (fun v => String.eqb (id v) new_id) (users db0) = false).
Proof.
  unfold register, get_by_email, get_by_username. unfold_m. rewrite select_user_eq.
  destruct (filter _ (users db0)) as [|x [|y l]];
    try (intros H; inversion H; subst; split; auto; fail).
  rewrite select_user_eq.
  destruct (filter _ (users db0)) as [|x [|y l]];
    try (intros H; inversion H; subst; split; auto; fail).
  unfold user_repo_create.
  destruct (existsb _ (users db0)) eqn:E; intros H; inversion H; subst;
    simpl; split; auto.
  right. eexists. split; [reflexivity|]. split; [reflexivity|].
  rewrite existsb_false_forall in E. apply existsb_false_forall.
  intros v Hv. specialize (E v Hv). apply orb_false_elim in E as [E _].
  apply orb_false_elim in E as [E _]. exact E.
Qed.

(* ------------------------------------------------------------------ *)
(** ** How one request changes the refresh-token table *)

Lemma cond_revoke_monotone (b : RefreshToken -> bool) now :
  monotone_row (fun x => if b x then rt_revoke now x else x).
Proof. intros x. destruct (b x); simpl; auto. Qed.

Lemma id_monotone : monotone_row (fun x => x).
Proof. intros x. auto. Qed.

Lemma table_step_refl now l : table_step now l l.
Proof. rewrite <- (map_id l) at 2. apply ts_map, id_monotone. Qed.

Lemma logout_session_table now tok db0 :
  table_step now (rt_table db0) (rt_table (snd (run_tx (logout_session now tok) db0)))
  /\ users (snd (run_tx (logout_session now tok) db0)) = users db0.
Proof.
  destruct (run_tx (logout_session now tok) db0) as [r db1] eqn:E. simpl.
  apply run_tx_cases in E as [[a [_ E]]|[e [_ ->]]];
    [|split; auto using table_step_refl].
  revert E. unfold logout_session. unfold_m. rewrite revoke_eq.
  destruct (filter _ (rt_table db0)) as [|x [|y l]]; intros E; inversion E;
    subst; simpl; split; auto using table_step_refl.
  apply ts_map, cond_revoke_monotone.
Qed.

Lemma step_table w w' :
  step w w' -> table_step (clock w) (rt_table (db w)) (rt_table (db w')).
Proof.
  intros St. destruct St; simpl; try apply table_step_refl.
  - destruct (run_tx (register new_id s ui) (db w)) as [r db'] eqn:E. simpl.
    apply run_tx_cases in E as [[a [_ E]]|[e [_ E]]]; subst; [|apply table_step_refl].
    apply register_shape in E as [-> _]. apply table_step_refl.
  - apply run_tx_cases in H as [[a [_ E]]|[e [_ E]]]; subst; [|apply table_step_refl].
    apply login_ok in E as (u & _ & _ & _ & _ & Ex & ->). simpl.
    rewrite <- (map_id (rt_table (db w))) at 2.
    apply ts_add; [apply id_monotone|]. rewrite map_id. exact Ex.
  - apply run_tx_cases in H as [[a [_ E]]|[e [_ E]]]; subst; [|apply table_step_refl].
    apply refresh_ok in E as (c & r0 & u & _ & _ & _ & _ & _ & _ & _ & Ex & ->). simpl.
    apply ts_add; [apply cond_revoke_monotone|]. exact Ex.
  - unfold logout_request. simpl. apply logout_session_table.
  - apply (ts_map _ _ _ (cond_revoke_monotone _ _)).
  - apply ts_sweep.
Qed.

Lemma step_clock w w' : step w w' -> clock w <= clock w'.
Proof. intros St. destruct St; simpl; lia. Qed.

Lemma logout_blacklist_spec now a k ttl :
  logout_blacklist now a = Some (k, ttl) ->
  k = a /\ exists c, decode_token now a = Some c
                     /\ ttl = match exp c with Some e => e | None => 0 end - now
                     /\ ttl > 0.
Proof.
  unfold logout_blacklist.
  destruct (decode_token now a) as [c|] eqn:D; [|discriminate].
  destruct (claims_truthy c); [|discriminate].
  destruct (Z.max 0 _ >? 0) eqn:T; [|discriminate].
  intros H; inversion H; subst. split; [reflexivity|].
  exists c. apply Z.gtb_lt in T. split; [reflexivity|]. lia.
Qed.

Lemma step_issued w w' :
  step w w' ->
  issued w' = issued w
  \/ exists s, issued w' = issued w ++ [create_access_token (clock w) s;
                                        create_refresh_token (clock w) s]
               /\ In (new_row (clock w) s) (rt_table (db w')).
Proof.
  intros St. destruct St; simpl; auto.
  - apply run_tx_cases in H as [[a [-> E]]|[e [-> _]]];
      [|left; apply app_nil_r].
    apply login_ok in E as (u & _ & _ & _ & -> & _ & ->). right.
    exists (id u). split; [reflexivity|]. simpl. apply in_or_app. right. left. reflexivity.
  - apply run_tx_cases in H as [[a [-> E]]|[e [-> _]]];
      [|left; apply app_nil_r].
    apply refresh_ok in E as (c & r0 & u & _ & _ & _ & _ & _ & _ & -> & _ & ->). right.
    exists (id u). split; [reflexivity|]. simpl. apply in_or_app. right. left. reflexivity.
Qed.

Lemma step_denylist w w' :
  step w w' ->
  denylist w' = denylist w
  \/ exists a ttl, presentable w a /\ logout_blacklist (clock w) a = Some (a, ttl)
                   /\ denylist w' = redis_setex (denylist w) (clock w) a ttl.
Proof.
  intros St. destruct St; simpl; auto.
  unfold logout_request, logout. simpl.
  destruct (logout_blacklist (clock w) a) as [[k ttl]|] eqn:L; auto.
  pose proof (logout_blacklist_spec _ _ _ _ L) as [-> _].
  right. exists a, ttl. auto.
Qed.

Lemma NoDup_snoc {A} (l : list A) x : NoDup l -> ~ In x l -> NoDup (l ++ [x]).
Proof.
  induction l as [|y l IH]; simpl; intros Nd Nin.
  - constructor; [auto | constructor].
  - inversion Nd; subst. constructor.
    + intros Hin. apply in_app_or in Hin as [Hin|[Hin|[]]]; [contradiction|].
      apply Nin. left. auto.
    + apply IH; auto.
Qed.

Lemma step_users w w' : step w w' -> users_ok (db w) -> users_ok (db w').
Proof.
  unfold users_ok. intros St [Nd Ne].
  destruct St; cbn [db clock issued denylist]; try (split; assumption);
    try (simpl; split; assumption).
  - destruct (run_tx (register new_id s ui) (db w)) as [r db'] eqn:E. simpl.
    apply run_tx_cases in E as [[a [_ E]]|[e [_ ->]]]; [|split; assumption].
    apply register_shape in E as [_ [->|(u & -> & Hid & Fresh)]]; [split; assumption|].
    split.
    + rewrite map_app. apply NoDup_snoc; auto. simpl.
      intros Hin. apply in_map_iff in Hin as (v & Hv & Hin).
      rewrite existsb_false_forall in Fresh. specialize (Fresh v Hin).
      rewrite Hv, Hid, String.eqb_refl in Fresh. discriminate.
    + intros v Hin. apply in_app_or in Hin as [Hin|[<-|[]]]; auto. congruence.
  - apply run_tx_cases in H as [[a [_ E]]|[e [_ ->]]]; [|split; assumption].
    apply login_ok in E as (u & _ & _ & _ & _ & _ & ->). split; assumption.
  - apply run_tx_cases in H as [[a [_ E]]|[e [_ ->]]]; [|split; assumption].
    apply refresh_ok in E as (c & r0 & u & _ & _ & _ & _ & _ & _ & _ & _ & ->).
    split; assumption.
  - unfold logout_request. simpl.
    destruct (logout_session_table (clock w) rt (db w)) as [_ ->]. split; assumption.
Qed.

(* ------------------------------------------------------------------ *)
(** ** Invariant of the reachable worlds *)

Lemma NoDup_map_filter {A B} (f : A -> B) (p : A -> bool) l :
  NoDup (map f l) -> NoDup (map f (filter p l)).
Proof.
  induction l as [|x l IH]; simpl; intros Nd; [constructor|].
  inversion Nd; subst. destruct (p x); simpl; auto.
  constructor; auto. intros Hin. apply in_map_iff in Hin as (y & Hy & Hin).
  apply filter_In in Hin as [Hin _]. apply H1. rewrite <- Hy. apply in_map; auto.
Qed.

Lemma map_token_monotone g l :
  monotone_row g -> map token (map g l) = map token l.
Proof.
  intros Mg. rewrite map_map. apply map_ext. intros x. apply Mg.
Qed.

Lemma table_step_nodup now l l' :
  table_step now l l' -> NoDup (map token l) -> NoDup (map token l').
Proof.
  intros T Nd. destruct T as [g Mg|g s Mg Ex|].
  - rewrite map_token_monotone; auto.
  - rewrite map_app. simpl. apply NoDup_snoc.
    + rewrite map_token_monotone; auto.
    + intros Hin. apply in_map_iff in Hin as (x & Hx & Hin).
      rewrite existsb_false_forall in Ex. specialize (Ex x Hin).
      rewrite Hx, token_eqb_refl in Ex. discriminate.
  - apply NoDup_map_filter; auto.
Qed.

Lemma table_step_shape now l l' :
  table_step now l l' ->
  (forall r, In r l -> refresh_shape r) -> forall r, In r l' -> refresh_shape r.
Proof.
  intros T Sh r Hin. destruct T as [g Mg|g s Mg Ex|].
  - apply in_map_iff in Hin as (x & <- & Hin).
    destruct (Mg x) as (Ht & He & _). destruct (Sh x Hin) as [s Hs].
    exists s. rewrite Ht, He. exact Hs.
  - apply in_app_or in Hin as [Hin|[<-|[]]].
    + apply in_map_iff in Hin as (x & <- & Hin).
      destruct (Mg x) as (Ht & He & _). destruct (Sh x Hin) as [s' Hs].
      exists s'. rewrite Ht, He. exact Hs.
    + exists s. reflexivity.
  - apply filter_In in Hin as [Hin _]. auto.
Qed.

(** Rows survive a request, keeping token and revocation, unless the
    expired-row sweep deletes them. *)
Lemma table_step_keeps now l l' :
  table_step now l l' ->
  forall r, In r l ->
  (exists r', In r' l' /\ token r' = token r
              /\ expires_at r' = expires_at r
              /\ (is_revoked r = true -> is_revoked r' = true))
  \/ expires_at r < now.
Proof.
  intros T r Hin. destruct T as [g Mg|g s Mg Ex|].
  - left. exists (g r). destruct (Mg r) as (? & ? & ?).
    repeat split; auto. apply in_map; auto.
  - left. exists (g r). destruct (Mg r) as (? & ? & ?).
    repeat split; auto. apply in_or_app. left. apply in_map; auto.
  - destruct (expires_at r <? now) eqn:E.
    + right. apply Z.ltb_lt; auto.
    + left. exists r. repeat split; auto. apply filter_In. rewrite E. auto.
Qed.

Lemma decode_some now t c :
  decode_token now t = Some c -> t = Jwt SECRET_KEY c /\ forall e, exp c = Some e -> now < e.
Proof.
  unfold decode_token, jwt_decode. destruct t as [k c0|raw]; [|discriminate].
  destruct (String.eqb k SECRET_KEY) eqn:K; [|discriminate].
  apply String.eqb_eq in K. subst k.
  destruct (exp c0) as [e|] eqn:Ex.
  - destruct (e <=? now) eqn:L; [discriminate|]. intros H; inversion H; subst.
    split; auto. intros e' He'. rewrite Ex in He'. inversion He'; subst.
    apply Z.leb_gt in L. exact L.
  - intros H; inversion H; subst. split; auto. intros e' He'. congruence.
Qed.

Lemma create_access_token_inj t s t' s' :
  create_access_token t s = create_access_token t' s' -> t = t' /\ s = s'.
Proof. unfold create_access_token. intros H. inversion H. split; [lia | reflexivity]. Qed.

Lemma access_not_refresh t s t' s' :
  create_access_token t s <> create_refresh_token t' s'.
Proof. unfold create_access_token, create_refresh_token. intros H. inversion H. Qed.

Lemma shape_expiry r t s :
  refresh_shape r -> token r = create_refresh_token t s -> expires_at r = t + refresh_lifetime.
Proof.
  intros [s' Hs] Ht. rewrite Ht in Hs. unfold create_refresh_token in Hs.
  inversion Hs. reflexivity.
Qed.

Lemma issued_grows w w' k : step w w' -> In k (issued w) -> In k (issued w').
Proof.
  intros St Hin. destruct (step_issued w w' St) as [->|(s & -> & _)]; auto.
  apply in_or_app. left. exact Hin.
Qed.

Lemma paired_preserved w w' t s :
  Inv w -> step w w' ->
  (t + refresh_lifetime < clock w
   \/ exists r, In r (rt_table (db w)) /\ token r = create_refresh_token t s) ->
  t + refresh_lifetime < clock w'
  \/ exists r, In r (rt_table (db w')) /\ token r = create_refresh_token t s.
Proof.
  intros I St [Lt|(r & Hin & Ht)].
  - left. pose proof (step_clock _ _ St). lia.
  - destruct (table_step_keeps _ _ _ (step_table _ _ St) r Hin)
      as [(r' & Hin' & Ht' & _)|Lt].
    + right. exists r'. split; congruence.
    + left. pose proof (step_clock _ _ St).
      rewrite (shape_expiry r t s (inv_rt_shape w I r Hin) Ht) in Lt. lia.
Qed.

Lemma step_inv w w' : Inv w -> step w w' -> Inv w'.
Proof.
  intros I St. constructor.
  - apply (table_step_nodup _ _ _ (step_table _ _ St)), I.
  - apply (table_step_shape _ _ _ (step_table _ _ St)), I.
  - apply (step_users _ _ St), I.
  - intros k u Hin.
    destruct (step_denylist _ _ St) as [E|(a & ttl & Pa & L & E)];
      rewrite E in Hin.
    + eapply issued_grows; [exact St|]. eapply inv_dl_issued; eauto.
    + simpl in Hin. destruct Hin as [Hk|Hin].
      * inversion Hk; subst k.
        destruct (logout_blacklist_spec _ _ _ _ L) as [_ (c & D & _)].
        apply decode_some in D as [-> _].
        destruct Pa as [Ne|Pa]; [contradiction|].
        eapply issued_grows; eauto.
      * apply filter_In in Hin as [Hin _].
        eapply issued_grows; [exact St|]. eapply inv_dl_issued; eauto.
  - intros t s Hin.
    destruct (step_issued _ _ St) as [E|(s0 & E & Hrow)]; rewrite E in Hin.
    + apply paired_preserved with (w := w); auto. eapply inv_issued_paired; eauto.
    + apply in_app_or in Hin as [Hin|[Ha|[Hr|[]]]].
      * apply paired_preserved with (w := w); auto. eapply inv_issued_paired; eauto.
      * apply create_access_token_inj in Ha as [<- <-].
        right. exists (new_row (clock w) s0). split; auto.
      * exfalso. symmetry in Hr. eapply access_not_refresh; eauto.
Qed.

Lemma steps_inv w w' : Inv w -> steps w w' -> Inv w'.
Proof.
  intros I Ss. induction Ss; auto. apply IHSs. eapply step_inv; eauto.
Qed.

Lemma init_inv t0 : Inv (init_world t0).
Proof.
  constructor; simpl; try (intros; contradiction).
  - constructor.
  - split; [constructor | intros u []].
Qed.

Lemma reachable_inv w : reachable w -> Inv w.
Proof. intros [t0 Ss]. eapply steps_inv; [apply init_inv | exact Ss]. Qed.

Lemma steps_clock w w' : steps w w' -> clock w <= clock w'.
Proof.
  intros Ss. induction Ss; [lia|]. pose proof (step_clock _ _ H). lia.
Qed.

Lemma filter_nil_forall {A} (p : A -> bool) l :
  (forall v, In v l -> p v = false) -> filter p l = [].
Proof.
  induction l as [|y l IH]; simpl; intros H; auto.
  rewrite H by (left; reflexivity). apply IH. intros v Hv. apply H. right. exact Hv.
Qed.

(** In a table whose key column has no duplicates, selecting by the key
    of a row yields exactly that row. *)
Lemma filter_unique {A B} (f : A -> B) (eqb : B -> B -> bool)
  (Heq : forall a b, eqb a b = true <-> a = b) l x :
  NoDup (map f l) -> In x l -> filter (fun v => eqb (f v) (f x)) l = [x].
Proof.
  induction l as [|y l IH]; simpl; intros Nd Hin; [contradiction|].
  inversion Nd as [|? ? Nin Nd']; subst.
  destruct (eqb (f y) (f x)) eqn:E.
  - apply Heq in E. destruct Hin as [->|Hin].
    + f_equal. apply filter_nil_forall. intros v Hv.
      destruct (eqb (f v) (f x)) eqn:E'; auto. apply Heq in E'.
      exfalso. apply Nin. rewrite <- E'. apply in_map. exact Hv.
    + exfalso. apply Nin. rewrite E. apply in_map. exact Hin.
  - destruct Hin as [->|Hin].
    + assert (eqb (f x) (f x) = true) by (apply Heq; reflexivity). congruence.
    + apply IH; auto.
Qed.

Lemma user_get_unique us u :
  NoDup (map id us) -> In u us ->
  filter (fun v => String.eqb (id v) (id u)) us = [u].
Proof. apply filter_unique. apply String.eqb_eq. Qed.

Lemma token_select_unique rts r :
  NoDup (map token rts) -> In r rts ->
  filter (fun x => token_eqb (token x) (token r)) rts = [r].
Proof. apply filter_unique. apply token_eqb_true. Qed.

Lemma refresh_lifetime_pos : 0 < refresh_lifetime.
Proof. unfold refresh_lifetime, REFRESH_TOKEN_EXPIRE_DAYS. lia. Qed.

Lemma access_lifetime_pos : 0 < access_lifetime.
Proof. unfold access_lifetime, ACCESS_TOKEN_EXPIRE_MINUTES. lia. Qed.

(* ------------------------------------------------------------------ *)
(** ** C1 *)

(** C1: in every reachable state, when [login] succeeds for the account
    [u] its login name selects, [get_current_user] with the returned
    access token, at any instant before that token expires and with no
    request in between, returns [u]. *)
Theorem login_then_identify w ui resp db' u t' :
  reachable w ->
  run_tx (login (clock w) ui) (db w) = (Ok resp, db') ->
  fst (get_by_email_or_username (ul_username ui) (db w)) = Ok (Some u) ->
  clock w <= t' < clock w + access_lifetime ->
  get_current_user t' (denylist w) (access_token resp) db' = (Ok u, db').
Proof.
  intros R Hl Hu Ht. pose proof (reachable_inv w R) as I.
  apply run_tx_cases in Hl as [[a [Ea Hl]]|[e [Ee _]]]; [|discriminate].
  inversion Ea; subst a.
  apply login_ok in Hl as (u0 & F & _ & Act & -> & Fresh & ->).
  unfold get_by_email_or_username in Hu. rewrite select_user_eq, F in Hu.
  simpl in Hu. inversion Hu; subst u0. clear Hu.
  destruct (filter_one_in _ _ _ F) as [Hin _].
  destruct (inv_users w I) as [NdU NeU].
  assert (Em : String.eqb (id u) "" = false).
  { destruct (String.eqb (id u) "") eqn:Em; auto.
    apply String.eqb_eq in Em. exfalso. apply (NeU u Hin Em). }
  assert (Dl : redis_exists (denylist w) t' (create_access_token (clock w) (id u)) = false).
  { destruct (redis_exists _ _ _) eqn:Dl; [exfalso|reflexivity].
    unfold redis_exists in Dl. apply existsb_exists in Dl as [[k until] [Hk Dl]].
    apply andb_prop in Dl as [Dk _]. apply token_eqb_true in Dk. subst k.
    pose proof (inv_dl_issued w I _ _ Hk) as Iss.
    destruct (inv_issued_paired w I _ _ Iss) as [Lt|(r & Hr & Tr)].
    - pose proof refresh_lifetime_pos. lia.
    - rewrite existsb_false_forall in Fresh. specialize (Fresh r Hr).
      rewrite Tr, token_eqb_refl in Fresh. discriminate. }
  unfold get_current_user. cbn [access_token]. rewrite Dl.
  unfold decode_token, jwt_decode, create_access_token. cbn [exp].
  replace (clock w + access_lifetime <=? t') with false
    by (symmetry; apply Z.leb_gt; lia).
  simpl. rewrite Em.
  unfold user_repo_get. unfold_m. rewrite select_user_eq. simpl users.
  rewrite (user_get_unique _ _ NdU Hin). rewrite Act. reflexivity.
Qed.

Lemma w_alice_reachable : reachable w_alice.
Proof.
  exists 1000. eapply steps_step; [|apply steps_refl].
  apply (step_register (init_world 1000) "uid-alice" 1 ui_alice). discriminate.
Qed.

Lemma login_then_identify_witness :
  reachable w_alice
  /\ get_current_user 1500 [] (create_access_token 1000 "uid-alice")
       (mkDb [user_alice] [new_row 1000 "uid-alice"])
     = (Ok user_alice, mkDb [user_alice] [new_row 1000 "uid-alice"]).
Proof.
  split; [apply w_alice_reachable|].
  apply (login_then_identify w_alice (mkUserLogin "alice" "Password1!")
           (mkTokenResponse (create_access_token 1000 "uid-alice")
                            (create_refresh_token 1000 "uid-alice") "bearer")
           (mkDb [user_alice] [new_row 1000 "uid-alice"]) user_alice 1500).
  - apply w_alice_reachable.
  - vm_compute. reflexivity.
  - vm_compute. reflexivity.
  - unfold w_alice, clock, access_lifetime, ACCESS_TOKEN_EXPIRE_MINUTES. lia.
Defined.

(* ------------------------------------------------------------------ *)
(** ** C2 *)

Lemma rotated_away_step rt c e w w' :
  rt = Jwt SECRET_KEY c -> exp c = Some e ->
  Inv w -> step w w' -> rotated_away rt e w -> rotated_away rt e w'.
Proof.
  intros Hrt He I St [(r & Hin & Ht & Rv)|Le].
  - destruct (table_step_keeps _ _ _ (step_table _ _ St) r Hin)
      as [(r' & Hin' & Ht' & _ & Rv')|Lt].
    + left. exists r'. repeat split; auto. congruence.
    + right. pose proof (step_clock _ _ St).
      destruct (inv_rt_shape w I r Hin) as [s Hs]. rewrite Ht, Hrt in Hs.
      inversion Hs as [Hc]. rewrite Hc in He. simpl in He. inversion He. lia.
  - right. pose proof (step_clock _ _ St). lia.
Qed.

Lemma rotated_away_steps rt c e w w' :
  rt = Jwt SECRET_KEY c -> exp c = Some e ->
  Inv w -> steps w w' -> rotated_away rt e w -> rotated_away rt e w'.
Proof.
  intros Hrt He I Ss. induction Ss; auto.
  intros P. apply IHSs; [eapply step_inv; eauto|].
  eapply rotated_away_step; eauto.
Qed.

Lemma rotated_away_refresh_fails rt c e w :
  rt = Jwt SECRET_KEY c -> exp c = Some e ->
  Inv w -> rotated_away rt e w ->
  exists msg, fst (run_tx (refresh_tokens (clock w) rt) (db w))
              = Err (AuthenticationException msg).
Proof.
  intros Hrt He I P. unfold run_tx, refresh_tokens.
  destruct (decode_token (clock w) rt) as [c'|] eqn:D; [|eexists; reflexivity].
  destruct (claims_truthy c' && type_is c' "refresh"); simpl; [|eexists; reflexivity].
  destruct P as [(r & Hin & Ht & Rv)|Le].
  - unfold get_valid_by_token. unfold_m. rewrite get_by_token_eq.
    rewrite <- Ht, (token_select_unique _ _ (inv_rt_nodup w I) Hin).
    unfold is_valid. rewrite Rv. simpl. eexists. reflexivity.
  - exfalso. apply decode_some in D as [Hc Lt]. rewrite Hrt in Hc. inversion Hc; subst.
    specialize (Lt e He). lia.
Qed.

(** C2: in every reachable state, once [refresh_tokens rt] has succeeded,
    every later [refresh_tokens rt], after any sequence of requests,
    fails with [AuthenticationException]. *)
Theorem refresh_single_use w rt resp db1 w2 :
  reachable w ->
  run_tx (refresh_tokens (clock w) rt) (db w) = (Ok resp, db1) ->
  steps {| db := db1; denylist := denylist w; clock := clock w;
           issued := issued w ++ tokens_of (Ok resp) |} w2 ->
  exists msg, fst (run_tx (refresh_tokens (clock w2) rt) (db w2))
              = Err (AuthenticationException msg).
Proof.
  intros R Hr Ss. pose proof (reachable_inv w R) as I.
  assert (St : step w {| db := db1; denylist := denylist w; clock := clock w;
                         issued := issued w ++ tokens_of (Ok resp) |})
    by (apply (step_refresh w rt); exact Hr).
  pose proof (step_inv _ _ I St) as I1.
  apply run_tx_cases in Hr as [[a [Ea Hr]]|[e0 [Ee _]]]; [|discriminate].
  apply refresh_ok in Hr as (c & r & u & D & _ & F & _ & _ & _ & _ & _ & Hdb).
  destruct (filter_one_in _ _ _ F) as [Hin Ht]. apply token_eqb_true in Ht.
  destruct (inv_rt_shape w I r Hin) as [s Hs].
  apply decode_some in D as [Hrt _].
  assert (He : exp c = Some (expires_at r)).
  { rewrite Ht, Hrt in Hs. inversion Hs. reflexivity. }
  eapply rotated_away_refresh_fails; [exact Hrt | exact He | eapply steps_inv; eauto |].
  eapply rotated_away_steps; [exact Hrt | exact He | exact I1 | exact Ss |].
  left. exists (rt_revoke (clock w) r). simpl. rewrite Hdb. simpl.
  repeat split; auto. apply in_or_app. left. unfold revoke_rows.
  apply in_map_iff. exists r. rewrite Ht, token_eqb_refl. auto.
Qed.

Lemma steps_snoc w1 w2 w3 : steps w1 w2 -> step w2 w3 -> steps w1 w3.
Proof.
  intros Ss St. induction Ss.
  - eapply steps_step; [exact St | apply steps_refl].
  - eapply steps_step; eauto.
Qed.

Lemma w_alice_2000_reachable : reachable w_alice_2000.
Proof.
  destruct w_alice_reachable as [t0 Ss]. exists t0.
  eapply steps_snoc; [eapply steps_snoc; [exact Ss|]|].
  - apply (step_login w_alice (mkUserLogin "alice" "Password1!")). apply surjective_pairing.
  - apply step_tick. vm_compute. discriminate.
Qed.

Lemma refresh_single_use_witness :
  exists msg, fst (run_tx (refresh_tokens 2000 rt_alice) db_alice_rotated)
              = Err (AuthenticationException msg).
Proof.
  apply (refresh_single_use w_alice_2000 rt_alice resp_alice_2000 db_alice_rotated
           {| db := db_alice_rotated; denylist := denylist w_alice_2000;
              clock := 2000;
              issued := issued w_alice_2000 ++ tokens_of (Ok resp_alice_2000) |}).
  - apply w_alice_2000_reachable.
  - vm_compute. reflexivity.
  - apply steps_refl.
Defined.

(* ------------------------------------------------------------------ *)
(** ** C4 *)

Lemma redis_exists_in dl now k u :
  In (k, u) dl -> now < u -> redis_exists dl now k = true.
Proof.
  intros Hin Lt. unfold redis_exists. apply existsb_exists.
  exists (k, u). split; auto. rewrite token_eqb_refl. simpl. apply Z.ltb_lt. exact Lt.
Qed.

Lemma token_eqb_sym a b : token_eqb a b = token_eqb b a.
Proof.
  destruct (token_eqb a b) eqn:T.
  - apply token_eqb_true in T. subst. rewrite token_eqb_refl. reflexivity.
  - destruct (token_eqb b a) eqn:T'; auto.
    apply token_eqb_true in T'. subst. rewrite token_eqb_refl in T. discriminate.
Qed.

(** A live access token is denylisted by [logout] until its own expiry. *)
Lemma logout_blacklist_live now a c e :
  decode_token now a = Some c -> exp c = Some e ->
  logout_blacklist now a = Some (a, e - now).
Proof.
  intros D He. pose proof (decode_some _ _ _ D) as [_ Lt]. specialize (Lt e He).
  unfold logout_blacklist. rewrite D.
  assert (T : claims_truthy c = true).
  { destruct c as [s x ty]. cbn in He. subst x. destruct s, ty; reflexivity. }
  rewrite T, He, Z.max_r by lia.
  assert (G : (e - now >? 0) = true) by (apply Z.gtb_lt; lia).
  rewrite G. reflexivity.
Qed.

Lemma denylisted_step a c e w w' :
  a = Jwt SECRET_KEY c -> exp c = Some e ->
  step w w' -> In (a, e) (denylist w) -> In (a, e) (denylist w').
Proof.
  intros Ha He St Hin.
  destruct (step_denylist _ _ St) as [Eq|(k & ttl & _ & Hb & Eq)]; rewrite Eq; auto.
  unfold redis_setex. destruct (token_eqb k a) eqn:T.
  - apply token_eqb_true in T. subst k.
    apply logout_blacklist_spec in Hb as [_ (c' & D & Httl & _)].
    apply decode_some in D as [Ha' _]. rewrite Ha in Ha'. inversion Ha'. subst c'.
    rewrite He in Httl. left. f_equal. lia.
  - right. apply filter_In. split; auto. rewrite token_eqb_sym, T. reflexivity.
Qed.

Lemma denylisted_steps a c e w w' :
  a = Jwt SECRET_KEY c -> exp c = Some e ->
  steps w w' -> In (a, e) (denylist w) -> In (a, e) (denylist w').
Proof.
  intros Ha He Ss. induction Ss; auto.
  intros Hin. apply IHSs. eapply denylisted_step; eauto.
Qed.

Lemma denylisted_rejected a c e dl now d :
  a = Jwt SECRET_KEY c -> exp c = Some e -> In (a, e) dl ->
  (exists msg, get_current_user now dl a d = (Err (AuthenticationException msg), d))
  /\ (now < e ->
      get_current_user now dl a d = (Err (AuthenticationException MSG_TOKEN_REVOKED), d)).
Proof.
  intros Ha He Hin. unfold get_current_user.
  destruct (redis_exists dl now a) eqn:X.
  - split; [eexists|]; reflexivity.
  - split.
    + destruct (decode_token now a) as [c'|] eqn:D; [|eexists; reflexivity].
      exfalso. apply decode_some in D as [Ha' Lt]. rewrite Ha in Ha'.
      inversion Ha'. subst c'. specialize (Lt e He).
      rewrite (redis_exists_in _ _ _ _ Hin Lt) in X. discriminate.
    + intros Lt. rewrite (redis_exists_in _ _ _ _ Hin Lt) in X. discriminate.
Qed.

(** C4: when [logout a rt] runs at an instant where the access token [a]
    decodes with an expiry [e] (so [e - now > 0]), then after any further
    requests, [get_current_user] with [a], against any session state,
    fails with [AuthenticationException]; while the clock is before [e]
    it fails at the denylist check, with the revoked-token message and
    without touching the session. *)
Theorem logout_denies_access w a rt c e w2 :
  decode_token (clock w) a = Some c -> exp c = Some e ->
  steps (logout_request (clock w) a rt w) w2 ->
  forall d,
    (exists msg, get_current_user (clock w2) (denylist w2) a d
                 = (Err (AuthenticationException msg), d))
    /\ (clock w2 < e ->
        get_current_user (clock w2) (denylist w2) a d
        = (Err (AuthenticationException MSG_TOKEN_REVOKED), d)).
Proof.
  intros D He Ss d.
  pose proof (decode_some _ _ _ D) as [Ha _].
  apply (denylisted_rejected a c e); auto.
  apply (denylisted_steps a c e _ _ Ha He Ss).
  unfold logout_request, logout. cbn [denylist fst].
  rewrite (logout_blacklist_live _ _ _ _ D He).
  unfold redis_setex. left. f_equal. lia.
Qed.

Lemma logout_denies_access_witness :
  get_current_user 2000 [] (create_access_token 1000 "uid-alice") (db w_alice_in)
  = (Ok user_alice, db w_alice_in)
  /\ get_current_user 2000
       (denylist (tick_world 2000
                    (logout_request 1000 (create_access_token 1000 "uid-alice")
                                    rt_alice w_alice_in)))
       (create_access_token 1000 "uid-alice") (db w_alice_in)
     = (Err (AuthenticationException MSG_TOKEN_REVOKED), db w_alice_in).
Proof.
  split; [vm_compute; reflexivity|].
  apply (logout_denies_access w_alice_in (create_access_token 1000 "uid-alice") rt_alice
           (mkClaims (Some "uid-alice"%string) (Some (1000 + access_lifetime))
                     (Some "access"%string))
           (1000 + access_lifetime)
           (tick_world 2000
              (logout_request 1000 (create_access_token 1000 "uid-alice") rt_alice w_alice_in))).
  - vm_compute. reflexivity.
  - reflexivity.
  - eapply steps_step; [|apply steps_refl]. apply step_tick. vm_compute. discriminate.
  - vm_compute. reflexivity.
Defined.

(* ------------------------------------------------------------------ *)
(** ** C5 *)

(** C5: [refresh_tokens] under [get_db] either fails and leaves the
    session state exactly as it was, or commits both the revoked row of
    the presented token and an unrevoked row of the new refresh token
    (and leaves the users untouched). *)
Theorem refresh_rotation_atomic now rt db0 :
  match run_tx (refresh_tokens now rt) db0 with
  | (Err _, db') => db' = db0
  | (Ok resp, db') =>
      (exists r, In r (rt_table db') /\ token r = rt /\ is_revoked r = true)
      /\ (exists r, In r (rt_table db') /\ token r = refresh_token resp
                    /\ is_revoked r = false)
      /\ users db' = users db0
  end.
Proof.
  destruct (run_tx (refresh_tokens now rt) db0) as [res db'] eqn:E.
  apply run_tx_cases in E as [[a [Ea Hm]]|[e0 [Ee Hd]]]; subst res; [|exact Hd].
  apply refresh_ok in Hm
    as (c & r & u & _ & _ & F & _ & _ & _ & Hresp & _ & Hdb). subst db' a.
  destruct (filter_one_in _ _ _ F) as [Hin Ht]. apply token_eqb_true in Ht.
  cbn [rt_table users]. split; [|split; [|reflexivity]].
  - exists (rt_revoke now r). repeat split; auto.
    apply in_or_app. left. apply in_map_iff. exists r. rewrite Ht, token_eqb_refl. auto.
  - exists (new_row now (id u)). repeat split; auto.
    apply in_or_app. right. left. reflexivity.
Qed.

(* ------------------------------------------------------------------ *)
(** ** C6 *)

(** Over a column without duplicates, a lookup by key selects nothing or
    the one row with that key. *)
Lemma filter_key_cases {A B} (f : A -> B) (eqb : B -> B -> bool)
  (Heq : forall a b, eqb a b = true <-> a = b) l k :
  NoDup (map f l) ->
  filter (fun v => eqb (f v) k) l = []
  \/ exists x, In x l /\ f x = k /\ filter (fun v => eqb (f v) k) l = [x].
Proof.
  intros Nd. destruct (existsb (fun v => eqb (f v) k) l) eqn:X.
  - right. apply existsb_exists in X as (x & Hin & Hx). apply Heq in Hx. subst k.
    exists x. repeat split; auto. apply filter_unique; auto.
  - left. apply filter_nil_forall. apply existsb_false_forall. exact X.
Qed.

Lemma revoke_unique_cases now rt db0 :
  NoDup (map token (rt_table db0)) ->
  (existsb (fun r => token_eqb (token r) rt) (rt_table db0) = false
   /\ revoke now rt db0 = (Ok None, db0))
  \/ (exists r, In r (rt_table db0) /\ token r = rt
      /\ revoke now rt db0 = (Ok (Some (rt_revoke now r)),
                              mkDb (users db0) (revoke_rows now rt (rt_table db0)))).
Proof.
  intros Nd. rewrite revoke_eq.
  destruct (filter_key_cases token token_eqb token_eqb_true (rt_table db0) rt Nd)
    as [F|(r & Hin & Ht & F)]; rewrite F.
  - left. split; auto. apply existsb_false_forall. intros x Hx.
    destruct (token_eqb (token x) rt) eqn:T; auto.
    assert (In x (filter (fun v => token_eqb (token v) rt) (rt_table db0)))
      by (apply filter_In; auto).
    rewrite F in H. destruct H.
  - right. exists r. auto.
Qed.

(** [logout]'s denylist write, restated through [decode_token]. *)
Lemma logout_denylist_eq now a dl :
  0 <= now ->
  match logout_blacklist now a with
  | Some (k, ttl) => redis_setex dl now k ttl
  | None => dl
  end =
  match decode_token now a with
  | Some c =>
      if (match exp c with Some e => e | None => 0 end) - now >? 0
      then redis_setex dl now a ((match exp c with Some e => e | None => 0 end) - now)
      else dl
  | None => dl
  end.
Proof.
  intros Hn. unfold logout_blacklist.
  destruct (decode_token now a) as [c|]; [|reflexivity].
  destruct (claims_truthy c) eqn:T.
  - destruct (Z.lt_ge_cases 0 (match exp c with Some e => e | None => 0 end - now)) as [L|L].
    + rewrite Z.max_r by lia. destruct (_ >? 0); reflexivity.
    + rewrite Z.max_l by lia.
      assert (G : (match exp c with Some e => e | None => 0 end - now >? 0) = false)
        by (rewrite Z.gtb_ltb; apply Z.ltb_ge; lia).
      rewrite G. reflexivity.
  - destruct c as [[s|] [x|] [ty|]]; try discriminate T. cbn [exp].
    assert (G : (0 - now >? 0) = false) by (rewrite Z.gtb_ltb; apply Z.ltb_ge; lia).
    rewrite G. reflexivity.
Qed.

(** C6: with distinct stored tokens (the table's unique constraint) and a
    non-negative clock, [logout a rt] never raises; it writes the
    denylist entry for [a], with TTL [exp - now], exactly when [a]
    decodes and [exp - now > 0], and leaves the denylist alone
    otherwise; it leaves the session state unchanged when no row holds
    [rt], and revokes the row of [rt] when there is one. *)
Theorem logout_best_effort now a rt dl db0 :
  0 <= now ->
  NoDup (map token (rt_table db0)) ->
  fst (snd (logout now a rt dl db0)) = Ok tt
  /\ fst (logout now a rt dl db0) =
     match decode_token now a with
     | Some c =>
         if (match exp c with Some e => e | None => 0 end) - now >? 0
         then redis_setex dl now a ((match exp c with Some e => e | None => 0 end) - now)
         else dl
     | None => dl
     end
  /\ (existsb (fun r => token_eqb (token r) rt) (rt_table db0) = false ->
      snd (snd (logout now a rt dl db0)) = db0)
  /\ (forall r, In r (rt_table db0) -> token r = rt ->
      exists r', In r' (rt_table (snd (snd (logout now a rt dl db0))))
                 /\ token r' = rt /\ is_revoked r' = true).
Proof.
  intros Hn Nd. unfold logout. cbn [fst snd].
  rewrite (logout_denylist_eq now a dl Hn).
  unfold bind.
  destruct (revoke_unique_cases now rt db0 Nd) as [[X R]|(r & Hin & Ht & R)];
    rewrite R; unfold ret; cbn [fst snd].
  - split; [reflexivity|split; [reflexivity|split; [reflexivity|]]].
    intros r Hin Ht. rewrite existsb_false_forall in X.
    specialize (X r Hin). rewrite Ht, token_eqb_refl in X. discriminate.
  - split; [reflexivity|split; [reflexivity|split]].
    + intros X. rewrite existsb_false_forall in X.
      specialize (X r Hin). rewrite Ht, token_eqb_refl in X. discriminate.
    + intros r' Hin' Ht'. exists (rt_revoke now r'). cbn [rt_table].
      repeat split; auto. apply in_map_iff. exists r'.
      rewrite Ht', token_eqb_refl. auto.
Qed.

Lemma logout_best_effort_witness :
  fst (snd (logout 1000 (create_access_token 1000 "uid-alice") rt_alice []
                   (db w_alice_in))) = Ok tt
  /\ fst (logout 1000 (create_access_token 1000 "uid-alice") rt_alice []
                 (db w_alice_in))
     = [(create_access_token 1000 "uid-alice", 1000 + access_lifetime)].
Proof.
  destruct (logout_best_effort 1000 (create_access_token 1000 "uid-alice") rt_alice []
              (db w_alice_in)) as (H1 & H2 & _).
  - lia.
  - vm_compute. constructor; [intros []|constructor].
  - split; [exact H1|]. rewrite H2. vm_compute. reflexivity.
Defined.

(* ------------------------------------------------------------------ *)
(** ** C7 *)

(** C7: over a user table whose emails are distinct and whose usernames
    are distinct (the two unique columns), [register] with the email of
    any stored row, soft-deleted or not, fails with [BusinessException]
    (the conflict of the code) and leaves the session state unchanged,
    so no row is added; with the username of any stored row it also
    fails with a [BusinessException] and changes nothing. *)
Theorem register_duplicate_conflict new_id s ui db0 u :
  NoDup (map email (users db0)) -> NoDup (map username (users db0)) ->
  In u (users db0) ->
  (uc_email ui = email u ->
   register new_id s ui db0 = (Err (BusinessException MSG_EMAIL_TAKEN), db0))
  /\ (uc_username ui = username u ->
      exists msg, register new_id s ui db0 = (Err (BusinessException msg), db0)).
Proof.
  intros Ne Nu Hin.
  unfold register, get_by_email, get_by_username, select_user, scalar_one_or_none.
  unfold_m. split.
  - intros He. rewrite He.
    rewrite (filter_unique email String.eqb String.eqb_eq _ u Ne Hin). reflexivity.
  - intros Hu.
    destruct (filter_key_cases email String.eqb String.eqb_eq (users db0) (uc_email ui) Ne)
      as [F|(x & _ & _ & F)]; rewrite F; [|eexists; reflexivity].
    rewrite Hu, (filter_unique username String.eqb String.eqb_eq _ u Nu Hin).
    eexists. reflexivity.
Qed.

Lemma register_duplicate_conflict_witness :
  register "uid-carol" 3 (mkUserCreate "a@x.com" "carol" None "Password3!")
           (mkDb [user_alice_deleted] [])
  = (Err (BusinessException MSG_EMAIL_TAKEN), mkDb [user_alice_deleted] []).
Proof.
  apply (register_duplicate_conflict "uid-carol" 3
           (mkUserCreate "a@x.com" "carol" None "Password3!")
           (mkDb [user_alice_deleted] []) user_alice_deleted).
  - vm_compute. constructor; [intros []|constructor].
  - vm_compute. constructor; [intros []|constructor].
  - left. reflexivity.
  - reflexivity.
Defined.

(* ------------------------------------------------------------------ *)
(** ** C8 *)

(** C8 (amended): the two expiry checks differ at the boundary.  A JWT
    whose [exp] equals now is rejected by [decode_token]; a stored row
    counts as expired only when [expires_at < now], so a row with
    [expires_at = now] that is not revoked is valid and
    [get_valid_by_token] returns it. *)
Theorem expiry_boundary now c r db0 :
  (exp c = Some now -> decode_token now (Jwt SECRET_KEY c) = None)
  /\ (is_expired now r = true <-> expires_at r < now)
  /\ (expires_at r = now -> revoked_at r = None -> is_valid now r = true)
  /\ (expires_at r = now -> revoked_at r = None ->
      NoDup (map token (rt_table db0)) -> In r (rt_table db0) ->
      fst (get_valid_by_token now (token r) db0) = Ok (Some r)).
Proof.
  assert (V : expires_at r = now -> revoked_at r = None -> is_valid now r = true).
  { intros He Hr. unfold is_valid, is_revoked, is_expired. rewrite He, Hr.
    rewrite Z.gtb_ltb, Z.ltb_irrefl. reflexivity. }
  split; [|split; [|split; [exact V|]]].
  - intros He. unfold decode_token, jwt_decode. rewrite String.eqb_refl, He, Z.leb_refl.
    reflexivity.
  - unfold is_expired. rewrite Z.gtb_ltb. apply Z.ltb_lt.
  - intros He Hr Nd Hin. unfold get_valid_by_token. unfold_m.
    rewrite get_by_token_eq, (token_select_unique _ _ Nd Hin), (V He Hr). reflexivity.
Qed.

Lemma expiry_boundary_witness :
  decode_token 605800 tok_r = None
  /\ fst (get_valid_by_token 605800 tok_r (mkDb [] [row_live 605800]))
     = Ok (Some (row_live 605800)).
Proof.
  destruct (expiry_boundary 605800
              (mkClaims (Some "uid-alice"%string) (Some 605800) (Some "refresh"%string))
              (row_live 605800) (mkDb [] [row_live 605800])) as (H1 & _ & _ & H4).
  split.
  - apply H1. reflexivity.
  - apply H4; try reflexivity.
    + constructor; [intros []|constructor].
    + left. reflexivity.
Defined.

(* ------------------------------------------------------------------ *)
(** ** C10 *)

(** Every repository operation but [delete_expired] rewrites the rows in
    place with a [monotone_row] update, possibly appending rows. *)
Lemma run_op_table now op db0 :
  op <> OpDeleteExpired ->
  exists g tail, monotone_row g
    /\ rt_table (snd (run_op now op db0)) = map g (rt_table db0) ++ tail.
Proof.
  intros Hop.
  assert (Same : forall d, d = db0 ->
            exists g tail, monotone_row g /\ rt_table d = map g (rt_table db0) ++ tail).
  { intros d ->. exists (fun x => x), []. split; [apply id_monotone|].
    rewrite map_id, app_nil_r. reflexivity. }
  destruct op as [uid tok e|tok|tok|tok|uid|]; cbn [run_op]; unfold bind.
  - unfold rt_create. destruct (existsb _ (rt_table db0)); [apply Same; reflexivity|].
    exists (fun x => x). eexists. split; [apply id_monotone|].
    rewrite map_id. reflexivity.
  - rewrite get_by_token_eq. destruct (filter _ _) as [|x [|y l]]; apply Same; reflexivity.
  - unfold get_valid_by_token, bind. rewrite get_by_token_eq.
    destruct (filter _ _) as [|x [|y l]]; try (apply Same; reflexivity).
    destruct (is_valid now x); apply Same; reflexivity.
  - rewrite revoke_eq. destruct (filter _ _) as [|x [|y l]]; try (apply Same; reflexivity).
    exists (fun x => if token_eqb (token x) tok then rt_revoke now x else x), [].
    split; [apply cond_revoke_monotone|]. rewrite app_nil_r. reflexivity.
  - exists (fun r => if String.eqb (user_id r) uid && negb (is_revoked r)
                     then rt_revoke now r else r), [].
    split; [apply cond_revoke_monotone|]. rewrite app_nil_r. reflexivity.
  - contradiction.
Qed.

Lemma nth_error_map_app {A} (g : A -> A) l tail i x :
  nth_error l i = Some x -> nth_error (map g l ++ tail) i = Some (g x).
Proof.
  intros H. assert (Lt : (i < length l)%nat)
    by (apply nth_error_Some; rewrite H; discriminate).
  rewrite nth_error_app1 by (rewrite length_map; exact Lt).
  rewrite nth_error_map, H. reflexivity.
Qed.

(** C10: a repository operation other than [delete_expired] keeps every
    revoked row at its position, with its token, still revoked;
    [delete_expired] keeps exactly the rows with [expires_at >= now],
    unchanged and in order; and [get_valid_by_token] never returns a
    revoked row.  ([CRUDBase.update] and [CRUDBase.remove] are inherited
    by [RefreshTokenRepo] but never called on refresh tokens.) *)
Theorem revocation_monotone now op db0 :
  (op <> OpDeleteExpired ->
   forall i r, nth_error (rt_table db0) i = Some r -> is_revoked r = true ->
   exists r', nth_error (rt_table (snd (run_op now op db0))) i = Some r'
              /\ token r' = token r /\ is_revoked r' = true)
  /\ (op = OpDeleteExpired ->
      rt_table (snd (run_op now op db0))
      = filter (fun r => negb (expires_at r <? now)) (rt_table db0))
  /\ (forall tok r, fst (get_valid_by_token now tok db0) = Ok (Some r) ->
      is_revoked r = false).
Proof.
  split; [|split].
  - intros Hop i r Hi Hr.
    destruct (run_op_table now op db0 Hop) as (g & tail & Mg & E).
    exists (g r). rewrite E. destruct (Mg r) as (Ht & _ & Hrv).
    split; [apply nth_error_map_app; exact Hi|]. auto.
  - intros ->. reflexivity.
  - intros tok r. unfold get_valid_by_token. unfold_m. rewrite get_by_token_eq.
    destruct (filter _ _) as [|x [|y l]]; cbn [fst]; try discriminate.
    destruct (is_valid now x) eqn:V; cbn [fst]; intros H; inversion H; subst.
    unfold is_valid in V. apply andb_prop in V as [V _].
    destruct (is_revoked r); [discriminate|reflexivity].
Qed.

Lemma revocation_monotone_witness :
  exists r', nth_error (rt_table (snd (run_op 2000 (OpRevoke tok_r)
                                        (mkDb [] [row_revoked_at 1000])))) 0%nat = Some r'
             /\ token r' = tok_r /\ is_revoked r' = true.
Proof.
  destruct (revocation_monotone 2000 (OpRevoke tok_r) (mkDb [] [row_revoked_at 1000]))
    as (H1 & _ & _).
  apply (H1 ltac:(discriminate) 0%nat (row_revoked_at 1000)); reflexivity.
Defined.

(* ================================================================== *)
(** * Further properties of the code *)

(* ------------------------------------------------------------------ *)
(** ** Tokens ([app/core/security.py]) *)

Lemma decode_signed now s e ty :
  decode_token now (Jwt SECRET_KEY (mkClaims (Some s) (Some e) (Some ty)))
  = if now <? e then Some (mkClaims (Some s) (Some e) (Some ty)) else None.
Proof.
  unfold decode_token, jwt_decode. rewrite String.eqb_refl. cbn [exp].
  destruct (Z.ltb_spec now e) as [L|L].
  - rewrite (proj2 (Z.leb_gt e now) L). reflexivity.
  - rewrite (proj2 (Z.leb_le e now) L). reflexivity.
Qed.

(** An access token decodes, to its own payload, exactly during the
    [ACCESS_TOKEN_EXPIRE_MINUTES] after it is issued, and a refresh token
    exactly during the [REFRESH_TOKEN_EXPIRE_DAYS] after. *)
Theorem token_decode_window now s t :
  decode_token t (create_access_token now s)
  = (if t <? now + 30 * 60
     then Some (mkClaims (Some s) (Some (now + 30 * 60)) (Some "access"%string))
     else None)
  /\ decode_token t (create_refresh_token now s)
     = (if t <? now + 7 * 24 * 60 * 60
        then Some (mkClaims (Some s) (Some (now + 7 * 24 * 60 * 60)) (Some "refresh"%string))
        else None).
Proof.
  unfold create_access_token, create_refresh_token, access_lifetime, refresh_lifetime,
    ACCESS_TOKEN_EXPIRE_MINUTES, REFRESH_TOKEN_EXPIRE_DAYS.
  split; apply decode_signed.
Qed.

(** [refresh_tokens] refuses an access token and [get_current_user]
    refuses a refresh token, whatever the time, the denylist and the
    session state, with an [AuthenticationException] and no change. *)
Theorem token_type_separation now s t dl db0 :
  (exists msg, refresh_tokens t (create_access_token now s) db0
               = (Err (AuthenticationException msg), db0))
  /\ (exists msg, get_current_user t dl (create_refresh_token now s) db0
                  = (Err (AuthenticationException msg), db0)).
Proof.
  split.
  - unfold refresh_tokens, create_access_token. rewrite decode_signed.
    destruct (t <? now + access_lifetime); eexists; reflexivity.
  - unfold get_current_user, create_refresh_token.
    destruct (redis_exists _ _ _); [eexists; reflexivity|].
    rewrite decode_signed.
    destruct (t <? now + refresh_lifetime); eexists; reflexivity.
Qed.

(* ------------------------------------------------------------------ *)
(** ** [get_current_active_user] ([app/api/deps.py]) *)

Lemma get_current_user_active now dl tok db0 u db1 :
  get_current_user now dl tok db0 = (Ok u, db1) -> is_active u = true /\ db1 = db0.
Proof.
  unfold get_current_user.
  destruct (redis_exists dl now tok); [unfold_m; discriminate|].
  destruct (decode_token now tok) as [c|]; [|unfold_m; discriminate].
  destruct (negb _); [unfold_m; discriminate|].
  destruct (sub c) as [uid|]; [|unfold_m; discriminate].
  destruct (String.eqb uid ""); [unfold_m; discriminate|].
  unfold user_repo_get. unfold_m. rewrite select_user_eq.
  destruct (filter _ (users db0)) as [|x [|y l]]; try discriminate.
  destruct (is_active x) eqn:A; simpl; intros H; inversion H; subst; auto.
Qed.

(** The activity check of [get_current_active_user] never fires: the
    dependency answers exactly as [AuthService.get_current_user], which
    already refuses a disabled account. *)
Theorem get_current_active_user_same now dl tok db0 :
  get_current_active_user now dl tok db0 = get_current_user now dl tok db0.
Proof.
  unfold get_current_active_user, bind.
  destruct (get_current_user now dl tok db0) as [[u|e] d] eqn:E; [|reflexivity].
  apply get_current_user_active in E as [A ->]. rewrite A. reflexivity.
Qed.

(* ------------------------------------------------------------------ *)
(** ** Registration ([AuthService.register], [UserRepo.create]) *)

Lemma filter_nil_inv {A} (p : A -> bool) l :
  filter p l = [] -> forall v, In v l -> p v = false.
Proof.
  intros F v Hv. destruct (p v) eqn:P; auto.
  assert (In v (filter p l)) by (apply filter_In; auto). rewrite F in H. destruct H.
Qed.

Lemma register_ok new_id s ui db0 u db1 :
  register new_id s ui db0 = (Ok u, db1) ->
  filter (fun v => String.eqb (email v) (uc_email ui)) (users db0) = []
  /\ filter (fun v => String.eqb (username v) (uc_username ui)) (users db0) = []
  /\ existsb (fun v => String.eqb (id v) new_id
                       || String.eqb (email v) (uc_email ui)
                       || String.eqb (username v) (uc_username ui)) (users db0) = false
  /\ u = {| id := new_id; email := uc_email ui; username := uc_username ui;
            hashed_password := get_password_hash s (uc_password ui);
            full_name := uc_full_name ui; is_active := true;
            is_superuser := false; is_verified := false; deleted_at := None |}
  /\ db1 = mkDb (users db0 ++ [u]) (rt_table db0).
Proof.
  unfold register, get_by_email, get_by_username. unfold_m. rewrite select_user_eq.
  intros H.
  destruct (filter (fun v => String.eqb (email v) (uc_email ui)) (users db0))
    as [|x [|y l]]; try discriminate H.
  rewrite select_user_eq in H.
  destruct (filter (fun v => String.eqb (username v) (uc_username ui)) (users db0))
    as [|x [|y l]]; try discriminate H.
  unfold user_repo_create in H. cbv beta zeta in H.
  destruct (existsb _ (users db0)); [discriminate H|].
  inversion H. subst. repeat split; auto.
Qed.

(** A successful [register] appends exactly one row, with the given id,
    email and username, a hash the given password verifies against,
    [is_active], not superuser, not verified and not deleted; the
    refresh-token table is untouched. *)
Theorem register_creates_user new_id s ui db0 u db1 :
  register new_id s ui db0 = (Ok u, db1) ->
  users db1 = users db0 ++ [u] /\ rt_table db1 = rt_table db0
  /\ id u = new_id /\ email u = uc_email ui /\ username u = uc_username ui
  /\ verify_password (uc_password ui) (hashed_password u) = true
  /\ is_active u = true /\ is_superuser u = false /\ is_verified u = false
  /\ deleted_at u = None.
Proof.
  intros H. apply register_ok in H as (_ & _ & _ & -> & ->).
  cbn. repeat split; try reflexivity. apply String.eqb_refl.
Qed.

Lemma register_creates_user_witness :
  users (snd (register "uid-alice" 1 ui_alice (mkDb [] []))) = [user_alice]
  /\ verify_password "Password1!" (hashed_password user_alice) = true.
Proof.
  destruct (register_creates_user "uid-alice" 1 ui_alice (mkDb [] []) user_alice
              (mkDb [user_alice] [])) as (H1 & _ & _ & _ & _ & H6 & _).
  - vm_compute. reflexivity.
  - split; [exact H1 | exact H6].
Defined.



(* ------------------------------------------------------------------ *)
(** ** Soft deletion ([UserService.delete_user], [SoftDeleteMixin]) *)

Lemma filter_map_same {A} (p : A -> bool) (f : A -> A) l :
  (forall v, p (f v) = p v) -> filter p (map f l) = map f (filter p l).
Proof.
  intros Hp. induction l as [|x l IH]; simpl; auto.
  rewrite Hp. destruct (p x); simpl; rewrite IH; reflexivity.
Qed.

Lemma soft_delete_row_keeps now k : keeps_login_columns (soft_delete_row now k).
Proof. intros v. unfold soft_delete_row. destruct (String.eqb (id v) k); repeat split. Qed.

Lemma delete_user_ok now uid db0 db1 :
  delete_user now uid db0 = (Ok tt, db1) ->
  db1 = mkDb (map (soft_delete_row now uid) (users db0)) (rt_table db0).
Proof.
  unfold delete_user, user_repo_get. unfold_m. rewrite select_user_eq.
  destruct (filter (fun u => String.eqb (id u) uid) (users db0)) as [|x [|y l]] eqn:F;
    intros H; try discriminate H.
  assert (Hx : In x (filter (fun u => String.eqb (id u) uid) (users db0)))
    by (rewrite F; left; reflexivity).
  apply filter_In in Hx as [_ Hx]. apply String.eqb_eq in Hx.
  inversion H. rewrite Hx. reflexivity.
Qed.

Lemma login_users_map t ul f db0 db1 :
  keeps_login_columns f ->
  users db1 = map f (users db0) -> rt_table db1 = rt_table db0 ->
  fst (login t ul db1) = fst (login t ul db0).
Proof.
  intros Hf Hu Hr. unfold login, get_by_email_or_username. unfold_m.
  rewrite !select_user_eq, Hu, filter_map_same
    by (intros v; destruct (Hf v) as (_ & -> & -> & _); reflexivity).
  destruct (filter _ (users db0)) as [|x [|y l]]; try reflexivity. cbn [map].
  destruct (Hf x) as (-> & _ & _ & -> & ->).
  destruct (negb (verify_password _ _)); [reflexivity|].
  destruct (negb (is_active x)); [reflexivity|].
  unfold rt_create. rewrite Hr. destruct (existsb _ _); reflexivity.
Qed.

Lemma get_current_user_users_map t dl tok f db0 db1 :
  keeps_login_columns f ->
  users db1 = map f (users db0) ->
  fst (get_current_user t dl tok db1)
  = match fst (get_current_user t dl tok db0) with
    | Ok v => Ok (f v)
    | Err e => Err e
    end.
Proof.
  intros Hf Hu. unfold get_current_user.
  destruct (redis_exists dl t tok); [reflexivity|].
  destruct (decode_token t tok) as [c|]; [|reflexivity].
  destruct (negb _); [reflexivity|].
  destruct (sub c) as [uid|]; [|reflexivity].
  destruct (String.eqb uid ""); [reflexivity|].
  unfold user_repo_get. unfold_m. rewrite !select_user_eq, Hu, filter_map_same
    by (intros v; destruct (Hf v) as (-> & _); reflexivity).
  destruct (filter _ (users db0)) as [|x [|y l]]; try reflexivity. cbn [map].
  destruct (Hf x) as (_ & _ & _ & _ & ->).
  destruct (negb (is_active x)); reflexivity.
Qed.



(** After a successful [delete_user], every login gives the same answer
    as before (the same tokens, or the same error), and every token that
    identified an account before still identifies it, the deleted one
    now carrying its [deleted_at]. *)
Theorem delete_user_keeps_access now uid db0 db1 t ul t' dl tok :
  delete_user now uid db0 = (Ok tt, db1) ->
  fst (login t ul db1) = fst (login t ul db0)
  /\ fst (get_current_user t' dl tok db1)
     = match fst (get_current_user t' dl tok db0) with
       | Ok v => Ok (soft_delete_row now uid v)
       | Err e => Err e
       end.
Proof.
  intros H. apply delete_user_ok in H. subst db1. split.
  - apply (login_users_map _ _ (soft_delete_row now uid)); auto using soft_delete_row_keeps.
  - apply get_current_user_users_map; auto using soft_delete_row_keeps.
Qed.

Lemma delete_user_keeps_access_witness :
  fst (login 1000 (mkUserLogin "alice" "Password1!")
         (mkDb (map (soft_delete_row 1500 "uid-alice") [user_alice]) []))
  = fst (login 1000 (mkUserLogin "alice" "Password1!") (mkDb [user_alice] [])).
Proof.
  destruct (delete_user_keeps_access 1500 "uid-alice" (mkDb [user_alice] [])
              (mkDb (map (soft_delete_row 1500 "uid-alice") [user_alice]) [])
              1000 (mkUserLogin "alice" "Password1!") 1000 [] (Malformed ""))
    as [H _].
  - vm_compute. reflexivity.
  - exact H.
Defined.

(* ------------------------------------------------------------------ *)
(** ** Updates ([UserService.update_user], [update_user_me], [UserRepo.update]) *)

Lemma NoDup_map_inj {A B} (f : A -> B) l x y :
  NoDup (map f l) -> In x l -> In y l -> f x = f y -> x = y.
Proof.
  induction l as [|z l IH]; simpl; intros Nd Hx Hy E; [contradiction|].
  inversion Nd as [|? ? Nin Nd']; subst.
  destruct Hx as [<-|Hx], Hy as [<-|Hy]; auto.
  - exfalso. apply Nin. rewrite E. apply in_map. exact Hy.
  - exfalso. apply Nin. rewrite <- E. apply in_map. exact Hx.
Qed.

Lemma user_repo_update_ok s x uin db0 u' db1 :
  user_repo_update s x uin db0 = (Ok u', db1) ->
  exists e,
    match uu_email uin with None => Some (email x) | Some e => e end = Some e
    /\ existsb (fun v => negb (String.eqb (id v) (id x)) && String.eqb (email v) e)
               (users db0) = false
    /\ u' = {| id := id x; email := e; username := username x;
               hashed_password := match uu_password uin with
                                  | Some (Some p) => get_password_hash s p
                                  | _ => hashed_password x
                                  end;
               full_name := match uu_full_name uin with
                            | None => full_name x | Some f => f end;
               is_active := is_active x; is_superuser := is_superuser x;
               is_verified := is_verified x; deleted_at := deleted_at x |}
    /\ db1 = mkDb (map (fun v => if String.eqb (id v) (id x) then u' else v) (users db0))
                  (rt_table db0).
Proof.
  unfold user_repo_update. cbv zeta.
  destruct (uu_email uin) as [[e|]|]; [| discriminate |];
    (destruct (existsb _ (users db0)) eqn:X; [discriminate|]);
    intros H; inversion H; subst; eexists; repeat split; eauto.
Qed.

(** [update_user] on an existing row: the e-mail pre-check reads only, so
    a success is the success of [UserRepo.update] on that row. *)
Lemma update_user_ok s uid uin db0 u' db1 :
  update_user s uid uin db0 = (Ok u', db1) ->
  exists x, In x (users db0) /\ id x = uid
            /\ user_repo_update s x uin db0 = (Ok u', db1).
Proof.
  unfold update_user, user_repo_get, get_by_email. unfold_m. rewrite select_user_eq.
  destruct (filter (fun u => String.eqb (id u) uid) (users db0)) as [|x [|y l]] eqn:F;
    intros H; try discriminate H.
  assert (Hx : In x (filter (fun u => String.eqb (id u) uid) (users db0)))
    by (rewrite F; left; reflexivity).
  apply filter_In in Hx as [Hin Hx]. apply String.eqb_eq in Hx.
  exists x. split; [exact Hin|]. split; [exact Hx|].
  destruct (uu_email_attr uin) as [e|]; [|exact H].
  destruct (negb _ && negb _); [|exact H].
  rewrite select_user_eq in H.
  destruct (filter (fun u => String.eqb (email u) e) (users db0)) as [|z [|w l']];
    try discriminate H; [exact H|].
  destruct (negb (String.eqb (id z) (id x))); [discriminate H | exact H].
Qed.

(** Replacing the one row with key [k] by [u'], whose e-mail no other
    key holds, keeps the e-mail column free of duplicates. *)
Lemma NoDup_email_replace k u' l :
  NoDup (map email l) ->
  (forall v, In v l -> id v <> k -> email v <> email u') ->
  (length (filter (fun v => String.eqb (id v) k) l) <= 1)%nat ->
  NoDup (map email (map (fun v => if String.eqb (id v) k then u' else v) l)).
Proof.
  induction l as [|y l IH]; simpl; intros Nd Hc Hl; [constructor|].
  inversion Nd as [|? ? Nin Nd']; subst.
  destruct (String.eqb (id y) k) eqn:Ey; simpl in Hl.
  - assert (F : filter (fun v => String.eqb (id v) k) l = [])
      by (destruct (filter _ l); [reflexivity | simpl in Hl; lia]).
    assert (Hm : map (fun v => if String.eqb (id v) k then u' else v) l = l).
    { rewrite <- (map_id l) at 2. apply map_ext_in. intros v Hv.
      rewrite (filter_nil_inv _ _ F v Hv). reflexivity. }
    rewrite Hm. constructor; [|exact Nd'].
    intros Hin. apply in_map_iff in Hin as (v & Ev & Hv).
    apply (Hc v); auto.
    intros Eid. pose proof (filter_nil_inv _ _ F v Hv) as C. cbv beta in C.
    rewrite Eid, String.eqb_refl in C. discriminate C.
  - constructor.
    + intros Hin. rewrite map_map in Hin. apply in_map_iff in Hin as (v & Ev & Hv).
      destruct (String.eqb (id v) k) eqn:Ev'.
      * apply (Hc y); [left; reflexivity | |].
        -- intros E. rewrite E, String.eqb_refl in Ey. discriminate.
        -- symmetry. exact Ev.
      * apply Nin. rewrite <- Ev. apply in_map. exact Hv.
    + apply IH; auto.
Qed.

(** A successful [update_user] rewrites exactly the row of [uid] and
    nothing else: the id, the username, the flags and [deleted_at] are
    kept; the e-mail is the one sent, if any; the password hash is
    recomputed only for a password sent with a value, and then verifies
    that password; the refresh-token table is untouched. *)
Theorem update_user_frame s uid uin db0 u' db1 :
  update_user s uid uin db0 = (Ok u', db1) ->
  exists u, In u (users db0) /\ id u = uid
    /\ users db1 = map (fun v => if String.eqb (id v) uid then u' else v) (users db0)
    /\ rt_table db1 = rt_table db0
    /\ id u' = uid /\ username u' = username u /\ is_active u' = is_active u
    /\ is_superuser u' = is_superuser u /\ is_verified u' = is_verified u
    /\ deleted_at u' = deleted_at u
    /\ email u' = match uu_email uin with Some (Some e) => e | _ => email u end
    /\ match uu_password uin with
       | Some (Some p) => verify_password p (hashed_password u') = true
       | _ => hashed_password u' = hashed_password u
       end.
Proof.
  intros H. apply update_user_ok in H as (x & Hin & Hid & H).
  apply user_repo_update_ok in H as (e & Ee & _ & -> & ->).
  exists x. subst uid. split; [exact Hin|]. split; [reflexivity|].
  split; [reflexivity|]. split; [reflexivity|].
  do 6 (split; [reflexivity|]). split.
  - cbn [email]. destruct (uu_email uin) as [[e'|]|]; congruence.
  - cbn [hashed_password]. destruct (uu_password uin) as [[p|]|]; try reflexivity.
    apply String.eqb_refl.
Qed.

Lemma update_user_frame_witness :
  exists u, In u [user_alice] /\ id u = "uid-alice"%string
    /\ verify_password "Password9!"
         (hashed_password (mkUser "uid-alice" "n@x.com" "alice" (mkPwHash 7 "Password9!")
                                  None true false false None)) = true.
Proof.
  destruct (update_user_frame 7 "uid-alice"
              (mkUserUpdate (Some (Some "n@x.com"%string)) None (Some (Some "Password9!"%string)))
              (mkDb [user_alice] [])
              (mkUser "uid-alice" "n@x.com" "alice" (mkPwHash 7 "Password9!")
                      None true false false None)
              (mkDb [mkUser "uid-alice" "n@x.com" "alice" (mkPwHash 7 "Password9!")
                            None true false false None] []))
    as (u & Hin & Hid & _ & _ & _ & _ & _ & _ & _ & _ & _ & Hp).
  - vm_compute. reflexivity.
  - exists u. split; [exact Hin|]. split; [exact Hid | exact Hp].
Defined.

(** A successful [update_user] keeps the e-mail column free of
    duplicates and the ids as they were. *)
Theorem update_user_keeps_emails_unique s uid uin db0 u' db1 :
  NoDup (map email (users db0)) ->
  update_user s uid uin db0 = (Ok u', db1) ->
  NoDup (map email (users db1)) /\ map id (users db1) = map id (users db0).
Proof.
  intros Nd H. unfold update_user, user_repo_get in H.
  assert (F1 : (length (filter (fun v => String.eqb (id v) uid) (users db0)) <= 1)%nat).
  { unfold_m. rewrite select_user_eq in H.
    destruct (filter _ (users db0)) as [|x [|y l]]; simpl; try lia. discriminate H. }
  apply update_user_ok in H as (x & Hin & Hid & H).
  apply user_repo_update_ok in H as (e & Ee & X & -> & ->). cbn [users].
  rewrite Hid. split.
  - apply NoDup_email_replace; auto.
    intros v Hv Hne E. rewrite existsb_false_forall in X. specialize (X v Hv).
    rewrite Hid in X. apply String.eqb_neq in Hne. rewrite Hne in X. cbn in X.
    rewrite E, String.eqb_refl in X. discriminate X.
  - rewrite map_map. apply map_ext. intros v.
    destruct (String.eqb (id v) uid) eqn:E; [|reflexivity].
    apply String.eqb_eq in E. cbn. congruence.
Qed.

Lemma update_user_keeps_emails_unique_witness :
  NoDup (map email (users (snd (update_user 7 "uid-alice"
            (mkUserUpdate (Some (Some "n@x.com"%string)) None None) db_alice_bob)))).
Proof.
  apply (update_user_keeps_emails_unique 7 "uid-alice"
           (mkUserUpdate (Some (Some "n@x.com"%string)) None None) db_alice_bob
           (fst (match update_user 7 "uid-alice"
                       (mkUserUpdate (Some (Some "n@x.com"%string)) None None) db_alice_bob
                 with (Ok u, _) => (u, tt) | _ => (user_alice, tt) end))).
  - vm_compute. repeat constructor; simpl; intuition discriminate.
  - vm_compute. reflexivity.
Defined.

(** On an existing row, with the id and e-mail columns free of duplicates
    and no empty e-mail sent, [update_user] fails with [IntegrityError]
    exactly when the e-mail is sent as [null]: the falsy [null] skips the
    service's pre-check, and the repository writes it into the NOT NULL
    column; every other clash is caught by the pre-check. *)
Theorem update_user_integrity_iff s u uin db0 :
  NoDup (map id (users db0)) -> NoDup (map email (users db0)) ->
  In u (users db0) -> uu_email uin <> Some (Some ""%string) ->
  fst (update_user s (id u) uin db0) = Err IntegrityError <-> uu_email uin = Some None.
Proof.
  intros Ndi Nde Hin Hne.
  assert (Own : forall e, e = email u ->
            existsb (fun v => negb (String.eqb (id v) (id u)) && String.eqb (email v) e)
                    (users db0) = false).
  { intros e ->. apply existsb_false_forall. intros v Hv.
    destruct (String.eqb (email v) (email u)) eqn:E; [|apply andb_false_r].
    apply String.eqb_eq in E. rewrite (NoDup_map_inj _ _ _ _ Nde Hv Hin E).
    rewrite String.eqb_refl. reflexivity. }
  unfold update_user, user_repo_get, get_by_email, uu_email_attr. unfold_m.
  rewrite select_user_eq, user_get_unique by assumption.
  destruct (uu_email uin) as [[e|]|] eqn:Eu.
  - assert (He : String.eqb e "" = false).
    { apply String.eqb_neq. intros ->. apply Hne. reflexivity. }
    rewrite He. cbn [negb andb].
    destruct (String.eqb e (email u)) eqn:Ee; cbn [negb].
    + apply String.eqb_eq in Ee. unfold user_repo_update. rewrite Eu. cbv zeta.
      rewrite (Own e Ee). split; discriminate.
    + rewrite select_user_eq.
      destruct (filter_key_cases email String.eqb String.eqb_eq (users db0) e Nde)
        as [F | (x & Hx & Ex & F)]; rewrite F.
      * unfold user_repo_update. rewrite Eu. cbv zeta.
        replace (existsb _ (users db0)) with false; [split; discriminate|].
        symmetry. apply existsb_false_forall. intros v Hv.
        rewrite (filter_nil_inv _ _ F v Hv). apply andb_false_r.
      * destruct (String.eqb (id x) (id u)) eqn:Ei; cbn [negb].
        -- apply String.eqb_eq in Ei.
           rewrite (NoDup_map_inj _ _ _ _ Ndi Hx Hin Ei) in Ex.
           rewrite Ex, String.eqb_refl in Ee. discriminate Ee.
        -- split; discriminate.
  - unfold user_repo_update. rewrite Eu. split; reflexivity.
  - unfold user_repo_update. rewrite Eu. cbv zeta.
    rewrite (Own (email u) eq_refl). split; discriminate.
Qed.

Lemma update_user_integrity_iff_witness :
  fst (update_user 7 "uid-alice" (mkUserUpdate (Some None) None None) db_alice_bob)
  = Err IntegrityError.
Proof.
  assert (Hu : In user_alice (users db_alice_bob)) by (vm_compute; left; reflexivity).
  apply (proj2 (update_user_integrity_iff 7 user_alice
                  (mkUserUpdate (Some None) None None) db_alice_bob
                  ltac:(vm_compute; repeat constructor; simpl; intuition discriminate)
                  ltac:(vm_compute; repeat constructor; simpl; intuition discriminate)
                  Hu ltac:(discriminate))).
  reflexivity.
Defined.

(** [update_user_me] refuses an e-mail that another account already
    holds, with a business error and before anything is written. *)
Theorem update_user_me_email_in_use s cur uin v e db0 :
  NoDup (map email (users db0)) ->
  In v (users db0) -> email v = e -> id v <> id cur ->
  e <> ""%string -> e <> email cur ->
  uu_email uin = Some (Some e) ->
  update_user_me s cur uin db0 = (Err (BusinessException MSG_EMAIL_IN_USE), db0).
Proof.
  intros Nd Hv Ev Hid Hne Hcur Hu.
  unfold update_user_me, get_by_email, uu_email_attr. unfold_m. rewrite Hu.
  rewrite (proj2 (String.eqb_neq e "") Hne), (proj2 (String.eqb_neq e (email cur)) Hcur).
  cbn [negb andb]. rewrite select_user_eq. subst e.
  rewrite (filter_unique email String.eqb String.eqb_eq _ _ Nd Hv).
  rewrite (proj2 (String.eqb_neq (id v) (id cur)) Hid). reflexivity.
Qed.

Lemma update_user_me_email_in_use_witness :
  update_user_me 7 user_alice (mkUserUpdate (Some (Some "b@x.com"%string)) None None)
    db_alice_bob
  = (Err (BusinessException MSG_EMAIL_IN_USE), db_alice_bob).
Proof.
  apply (update_user_me_email_in_use 7 user_alice _
           (mkUser "uid-bob" "b@x.com" "a@x.com" (mkPwHash 2 "Password2!") None
                   true false false None) "b@x.com").
  - vm_compute. repeat constructor; simpl; intuition discriminate.
  - vm_compute. right. left. reflexivity.
  - reflexivity.
  - discriminate.
  - discriminate.
  - discriminate.
  - reflexivity.
Defined.

(* ------------------------------------------------------------------ *)
(** ** Pages ([UserService.get_users], [PageResponse.create]) *)

Lemma ceil_div_spec t l :
  0 < l -> 0 <= t ->
  t <= (t + l - 1) / l * l < t + l
  /\ forall p, p < (t + l - 1) / l <-> p * l < t.
Proof.
  intros Hl Ht.
  pose proof (Z.div_mod (t + l - 1) l ltac:(lia)) as D.
  pose proof (Z.mod_pos_bound (t + l - 1) l Hl) as B.
  set (q := (t + l - 1) / l) in *. set (r := (t + l - 1) mod l) in *.
  split; [nia|]. intros p. split; intros H; nia.
Qed.

Lemma get_users_some ord skip limit db0 pg :
  get_users ord skip limit db0 = Some pg ->
  0 <= skip /\ 1 <= limit
  /\ pg = mkPageResponse (firstn (Z.to_nat limit) (skipn (Z.to_nat skip) (ord (users db0))))
            (mkMetaResponse (Z.of_nat (length (users db0))) (skip / limit + 1) limit
               ((Z.of_nat (length (users db0)) + limit - 1) / limit)
               (skip / limit + 1 <? (Z.of_nat (length (users db0)) + limit - 1) / limit)
               (skip / limit + 1 >? 1)).
Proof.
  unfold get_users, crud_get_multi, PageResponse_create.
  destruct ((skip <? 0) || (limit <? 0)) eqn:C; [discriminate|].
  apply orb_false_iff in C as [C1 C2]. apply Z.ltb_ge in C1, C2.
  destruct (limit >? 0) eqn:L.
  - apply Z.gtb_lt in L. cbv zeta.
    destruct (_ && _ && _ && _) eqn:V; [|discriminate].
    intros H. inversion H. repeat split; lia.
  - cbv zeta. rewrite Z.gtb_ltb in L. apply Z.ltb_ge in L.
    destruct (1 <=? limit) eqn:S; [apply Z.leb_le in S; lia|].
    rewrite !andb_false_r, andb_false_l. discriminate.
Qed.


(** The page [get_users] builds: [total] counts every row, soft-deleted
    ones included; [page] is [skip // limit + 1]; [pages] is the least
    number of pages of [limit] rows that hold [total]; there is a next
    page exactly when [page * limit < total], and a previous one exactly
    when [skip >= limit]; and the page holds [limit] rows, or what is left
    after [skip] when fewer, as long as the ordering keeps every row. *)
Theorem get_users_page ord skip limit db0 pg :
  (forall l, length (ord l) = length l) ->
  get_users ord skip limit db0 = Some pg ->
  let total := Z.of_nat (length (users db0)) in
  m_total (meta pg) = total /\ m_page (meta pg) = skip / limit + 1 /\ m_size (meta pg) = limit
  /\ total <= m_pages (meta pg) * limit < total + limit
  /\ (m_has_next (meta pg) = true <-> (skip / limit + 1) * limit < total)
  /\ (m_has_prev (meta pg) = true <-> limit <= skip)
  /\ length (items pg) = Nat.min (Z.to_nat limit) (length (users db0) - Z.to_nat skip).
Proof.
  intros Hord H total. subst total. apply get_users_some in H as (Hs & Hl & ->). cbn.
  pose proof (ceil_div_spec (Z.of_nat (length (users db0))) limit ltac:(lia) ltac:(lia))
    as [[B1 B2] Hp].
  pose proof (Z.div_mod skip limit ltac:(lia)) as D.
  pose proof (Z.mod_pos_bound skip limit ltac:(lia)) as M.
  split; [reflexivity|]. split; [reflexivity|]. split; [reflexivity|].
  split; [lia|]. split; [|split].
  - rewrite Z.ltb_lt. apply Hp.
  - rewrite Z.gtb_lt. split; intros Hq.
    + pose proof (Z.mul_div_le skip limit ltac:(lia)). nia.
    + pose proof (Z.div_le_lower_bound skip limit 1 ltac:(lia) ltac:(lia)). lia.
  - rewrite length_firstn, length_skipn, Hord. reflexivity.
Qed.

Lemma get_users_page_witness :
  m_has_prev (meta (mkPageResponse (firstn 1 (skipn 1 (rev (users db_alice_bob))))
     (mkMetaResponse 2 2 1 2 false true))) = true.
Proof.
  assert (H : get_users (@rev User) 1 1 db_alice_bob
              = Some (mkPageResponse (firstn 1 (skipn 1 (rev (users db_alice_bob))))
                        (mkMetaResponse 2 2 1 2 false true)))
    by (vm_compute; reflexivity).
  destruct (get_users_page (@rev User) 1 1 db_alice_bob _ (@length_rev User) H)
    as (_ & _ & _ & _ & _ & Hprev & _).
  apply Hprev. lia.
Defined.

(* ------------------------------------------------------------------ *)
(** ** Bulk revocation and the expiry sweep ([RefreshTokenRepo]) *)


(** After [revoke_user_tokens uid], no refresh token of a row of [uid]
    can be rotated any more: [refresh_tokens] fails with an
    authentication error. *)
Theorem revoke_user_tokens_blocks_refresh now uid db0 t r :
  NoDup (map token (rt_table db0)) -> In r (rt_table db0) -> user_id r = uid ->
  exists msg,
    fst (refresh_tokens t (token r) (snd (revoke_user_tokens now uid db0)))
    = Err (AuthenticationException msg).
Proof.
  intros Nd Hr Hu. rewrite revoke_user_tokens_eq. unfold revoke_user_rows.
  set (g := fun r : RefreshToken =>
              if String.eqb (user_id r) uid && negb (is_revoked r) then rt_revoke now r else r).
  assert (Tg : forall x, token (g x) = token x)
    by (intros x; unfold g; destruct (_ && _); reflexivity).
  assert (Rg : forall x, user_id x = uid -> is_revoked (g x) = true).
  { intros x Hx. unfold g. rewrite Hx, String.eqb_refl.
    destruct (is_revoked x) eqn:R; cbn; [exact R | reflexivity]. }
  assert (Nd' : NoDup (map token (map g (rt_table db0)))).
  { rewrite map_map. erewrite map_ext by (intros x; apply Tg). exact Nd. }
  assert (F : filter (fun x => token_eqb (token x) (token r)) (map g (rt_table db0)) = [g r]).
  { rewrite <- (Tg r). apply token_select_unique; [exact Nd' | apply in_map; exact Hr]. }
  unfold refresh_tokens.
  destruct (decode_token t (token r)) as [c|]; [|eexists; reflexivity].
  destruct (negb _); [eexists; reflexivity|].
  unfold get_valid_by_token. unfold_m. rewrite get_by_token_eq. cbn [rt_table].
  rewrite F. unfold is_valid. rewrite (Rg r Hu). cbn. eexists. reflexivity.
Qed.

Lemma revoke_user_tokens_blocks_refresh_witness :
  exists msg,
    fst (refresh_tokens 2000 rt_alice
           (snd (revoke_user_tokens 1500 "uid-alice" (db w_alice_in))))
    = Err (AuthenticationException msg).
Proof.
  apply (revoke_user_tokens_blocks_refresh 1500 "uid-alice" (db w_alice_in) 2000
           (mkRefreshToken rt_alice "uid-alice" (1000 + refresh_lifetime) 1000 None)).
  - vm_compute. constructor; [intros [] | constructor].
  - vm_compute. left. reflexivity.
  - reflexivity.
Defined.

Lemma filter_partition_length {A} (p : A -> bool) l :
  (length (filter p l) + length (filter (fun x => negb (p x)) l))%nat = length l.
Proof.
  induction l as [|x l IH]; simpl; auto. destruct (p x); simpl; lia.
Qed.

(** [delete_expired] removes exactly the rows whose [expires_at] is
    before [now], revoked or not, and returns how many it removed; every
    row that has not expired yet stays, whether revoked or not; the users
    table is untouched. *)
Theorem delete_expired_count now db0 :
  exists n, fst (delete_expired now db0) = Ok n
  /\ (n + length (rt_table (snd (delete_expired now db0))))%nat = length (rt_table db0)
  /\ users (snd (delete_expired now db0)) = users db0
  /\ (forall r, In r (rt_table (snd (delete_expired now db0))) -> now <= expires_at r)
  /\ (forall r, In r (rt_table db0) -> now <= expires_at r ->
        In r (rt_table (snd (delete_expired now db0)))).
Proof.
  rewrite delete_expired_eq. cbn [users rt_table]. unfold sweep_rows.
  eexists. split; [reflexivity|]. split; [|split; [reflexivity|split]].
  - apply filter_partition_length.
  - intros r Hr. apply filter_In in Hr as [_ Hr]. apply negb_true_iff, Z.ltb_ge in Hr. exact Hr.
  - intros r Hr He. apply filter_In. split; [exact Hr|].
    apply negb_true_iff, Z.ltb_ge. exact He.
Qed.

(** The sweep never changes what [get_valid_by_token] answers from [now]
    on: every row it removes had already expired. *)
Theorem delete_expired_keeps_valid now now' tok db0 :
  NoDup (map token (rt_table db0)) -> now <= now' ->
  fst (get_valid_by_token now' tok (snd (delete_expired now db0)))
  = fst (get_valid_by_token now' tok db0).
Proof.
  intros Nd Hn. rewrite delete_expired_eq. unfold get_valid_by_token. unfold_m.
  rewrite !get_by_token_eq. cbn [rt_table]. unfold sweep_rows.
  set (q := fun r : RefreshToken => negb (expires_at r <? now)).
  assert (Nd' : NoDup (map token (filter q (rt_table db0)))) by (apply NoDup_map_filter; exact Nd).
  destruct (filter_key_cases token token_eqb token_eqb_true (rt_table db0) tok Nd)
    as [F | (x & Hx & Ex & F)].
  - rewrite F. rewrite filter_nil_forall; [reflexivity|].
    intros v Hv. apply filter_In in Hv as [Hv _]. exact (filter_nil_inv _ _ F v Hv).
  - rewrite F.
    destruct (filter_key_cases token token_eqb token_eqb_true (filter q (rt_table db0)) tok Nd')
      as [F' | (y & Hy & Ey & F')]; rewrite F'.
    + destruct (q x) eqn:Qx.
      * assert (Hin : In x (filter q (rt_table db0))) by (apply filter_In; auto).
        pose proof (filter_nil_inv _ _ F' x Hin) as C. cbv beta in C.
        rewrite Ex, (proj2 (token_eqb_true tok tok) eq_refl) in C. discriminate C.
      * unfold q in Qx. apply negb_false_iff, Z.ltb_lt in Qx.
        unfold is_valid, is_expired.
        rewrite (proj2 (Z.gtb_lt now' (expires_at x))) by lia.
        rewrite andb_false_r. reflexivity.
    + apply filter_In in Hy as [Hy _].
      rewrite (NoDup_map_inj token _ y x Nd Hy Hx ltac:(congruence)).
      destruct (is_valid now' x); reflexivity.
Qed.

Lemma delete_expired_keeps_valid_witness :
  fst (get_valid_by_token 2000 rt_alice (snd (delete_expired 1500 (db w_alice_in))))
  = fst (get_valid_by_token 2000 rt_alice (db w_alice_in)).
Proof.
  apply delete_expired_keeps_valid.
  - vm_compute. constructor; [intros [] | constructor].
  - lia.
Defined.

(* ------------------------------------------------------------------ *)
(** ** Unknown ids ([UserService.get_user], [update_user], [delete_user]) *)


